(** * OGGM-Edu notebooks: the glue code of the idealised glacier experiments

    The notebooks build year schedules with [np.arange]/[np.append], bed
    profiles with [np.linspace], fill diagnostic arrays created by
    [np.zeros] inside [for i, yr in enumerate(yrs)] loops, and drive the
    flowline model of OGGM through [model.run_until].  This file embeds
    those cells: integers are [Z], numpy float arrays holding exact values
    are lists over [Q] (exact rationals, no rounding), Python exceptions are
    the [Raise] branch of a result type.  Where rounding decides whether a
    cell raises (the time constants), the float operations are parameters
    of the cell. *)

From Stdlib Require Import ZArith QArith Qround Qabs Lia Lqa.
From stdpp Require Import base tactics option list sorting.

Local Open Scope Z_scope.

(** ** Python and numpy primitives used by the notebooks *)

Module Py.

(** The exceptions the cells can meet, [InvalidConfiguration], the
    condition the spec gives to the builders of oggm_edu, and
    [NumericalInstability], the one it gives to the stepping of the
    external model; no cell of the notebooks raises the last two itself. *)
Inductive exn : Type :=
  | ValueError
  | IndexError
  | ZeroDivisionError
  | InvalidConfiguration
  | NumericalInstability.

Inductive result (A : Type) : Type :=
  | Ok (a : A)
  | Raise (e : exn).
Arguments Ok {A} a.
Arguments Raise {A} e.

#[global] Instance result_ret : MRet result := fun A a => Ok a.
#[global] Instance result_bind : MBind result := fun A B f m =>
  match m with
  | Ok a => f a
  | Raise e => Raise e
  end.
#[global] Instance result_fmap : FMap result := fun A B f m =>
  match m with
  | Ok a => Ok (f a)
  | Raise e => Raise e
  end.

Definition is_ok {A} (r : result A) : bool :=
  match r with Ok _ => true | Raise _ => false end.


(** [len(a)] as a Python integer. *)
Definition len {A} (a : list A) : Z := Z.of_nat (length a).

(** Ceiling of [a / b]; [Z.div] rounds towards minus infinity. *)
Definition cdiv (a b : Z) : Z := - ((- a) / b).

(** [np.arange(start, stop, step)] on integers: [ceil((stop-start)/step)]
    values [start + k*step], none when that count is not positive; a zero
    step is a division by zero. *)
Definition arange (start stop step : Z) : result (list Z) :=
  if decide (step = 0) then Raise ZeroDivisionError
  else Ok ((fun k => start + k * step) <$> seqZ 0 (cdiv (stop - start) step)).

(** [np.append(a, b)] of two one-dimensional arrays. *)
Definition append {A} (a b : list A) : list A := a ++ b.

(** [a[i]] for an integer index: a negative index counts from the end, an
    index outside [-len(a) .. len(a)-1] raises [IndexError]. *)
Definition getitem {A} (a : list A) (i : Z) : result A :=
  let j := if decide (i < 0) then i + len a else i in
  if decide (0 <= j) then
    match a !! Z.to_nat j with
    | Some x => Ok x
    | None => Raise IndexError
    end
  else Raise IndexError.

(** [a[i] = v] for an integer index, same index rules as [getitem]. *)
Definition setitem {A} (a : list A) (i : Z) (v : A) : result (list A) :=
  let j := if decide (i < 0) then i + len a else i in
  if decide (0 <= j < len a) then Ok (<[Z.to_nat j := v]> a)
  else Raise IndexError.

(** [np.zeros(n)]: a negative dimension is a [ValueError]. *)
Definition zeros (n : Z) : result (list Q) :=
  if decide (n < 0) then Raise ValueError
  else Ok (replicate (Z.to_nat n) 0%Q).

(** [for x in xs: s = body(s, x)], stopping at the first exception. *)
Fixpoint for_each {A S} (body : S -> A -> result S) (xs : list A) (s : S)
  : result S :=
  match xs with
  | [] => Ok s
  | x :: xs => s' ← body s x; for_each body xs s'
  end.

(** [for i, x in enumerate(xs): s = body(s, i, x)], counting from [i]. *)
Fixpoint for_enumerate {A S} (body : S -> Z -> A -> result S) (i : Z)
    (xs : list A) (s : S) : result S :=
  match xs with
  | [] => Ok s
  | x :: xs => s' ← body s i x; for_enumerate body (i + 1) xs s'
  end.

End Py.
Import Py.

(** ** surging_experiment.ipynb: the surge schedule *)

Module Surging.

(** One pass of the loop body for surge number [i]: the ten-line cell
    appends the densely sampled surge years, then the coarse years of the
    quiet period that follows.  The step [10] of the quiet years is a
    literal of the cell. *)
Definition surge_cycle (t_slow period_s : Z) (yrs : list Z) (i : Z)
  : result (list Z) :=
  yrs_sliding ← arange (t_slow + 1 + t_slow * i + period_s * i)
                        (t_slow + period_s + 1 + t_slow * i + period_s * i) 1;
  let yrs := append yrs yrs_sliding in
  yrs_normal ← arange (t_slow + period_s + 10 + t_slow * i + period_s * i)
                       (2 * t_slow + period_s + 10 + t_slow * i + period_s * i) 10;
  Ok (append yrs yrs_normal).

(** The array [yrs] after the cell has run. *)
Definition yrs (t_slow period_s no_surges : Z) : result (list Z) :=
  yrs0 ← arange 0 (t_slow + 1) 10;
  surges ← arange 0 no_surges 1;
  for_each (surge_cycle t_slow period_s) surges yrs0.

(** The same cell with every year paired with its provenance: [true] for a
    year appended from [yrs_sliding], [false] for the others.  This is the
    (year, is_perturbation) view of the schedule. *)
Definition tagged (b : bool) (ys : list Z) : list (Z * bool) :=
  (fun y => (y, b)) <$> ys.

Definition surge_cycle_tagged (t_slow period_s : Z) (sched : list (Z * bool))
    (i : Z) : result (list (Z * bool)) :=
  yrs_sliding ← arange (t_slow + 1 + t_slow * i + period_s * i)
                        (t_slow + period_s + 1 + t_slow * i + period_s * i) 1;
  let sched := append sched (tagged true yrs_sliding) in
  yrs_normal ← arange (t_slow + period_s + 10 + t_slow * i + period_s * i)
                       (2 * t_slow + period_s + 10 + t_slow * i + period_s * i) 10;
  Ok (append sched (tagged false yrs_normal)).

Definition schedule (t_slow period_s no_surges : Z)
  : result (list (Z * bool)) :=
  yrs0 ← arange 0 (t_slow + 1) 10;
  surges ← arange 0 no_surges 1;
  for_each (surge_cycle_tagged t_slow period_s) surges (tagged false yrs0).

End Surging.

(** Lengths of the maximal runs of consecutive [true] flags, left to right;
    [cur] is the length of the run being read. *)
Fixpoint runs_from (cur : nat) (flags : list bool) : list nat :=
  match flags with
  | [] => match cur with O => [] | S _ => [cur] end
  | true :: flags => runs_from (S cur) flags
  | false :: flags =>
      match cur with O => [] | S _ => [cur] end ++ runs_from 0 flags
  end.

Definition perturbation_runs (sched : list (Z * bool)) : list nat :=
  runs_from 0 (snd <$> sched).

(** ** surging_experiment.ipynb: marking the surging periods on the plots *)

Module SurgePlot.

(** The condition of the [if] in the plotting loop.  Python's [and] does
    not evaluate its right operand when the left one is false. *)
Definition surge_window_test (period_s : Z) (yrs : list Z) (i yr : Z)
  : result bool :=
  prev ← getitem yrs (i - 1);
  if decide (yr - prev = 1) then
    a ← getitem yrs (i - 1 + period_s);
    b ← getitem yrs (i + period_s - 2);
    Ok (bool_decide (a - b = 1))
  else Ok false.

(** One iteration; [spans] collects the arguments of [axvspan]. *)
Definition mark_step (period_s : Z) (yrs : list Z) (spans : list (Z * Z))
    (i yr : Z) : result (list (Z * Z)) :=
  hit ← surge_window_test period_s yrs i yr;
  if hit : bool then
    lo ← getitem yrs (i - 1);
    hi ← getitem yrs (i - 1 + period_s);
    Ok (spans ++ [(lo, hi)])
  else Ok spans.

Definition mark_surging_periods (period_s : Z) (yrs : list Z)
  : result (list (Z * Z)) :=
  for_enumerate (mark_step period_s yrs) 0 yrs [].

(** The left operand of the [and] alone. *)
Definition dense_step (yrs : list Z) (i yr : Z) : result bool :=
  prev ← getitem yrs (i - 1);
  Ok (bool_decide (yr - prev = 1)).

(** The outcome of the test at every index of [yrs], in loop order. *)
Definition window_tests (period_s : Z) (yrs : list Z) : list (result bool) :=
  imap (fun i yr => surge_window_test period_s yrs (Z.of_nat i) yr) yrs.

End SurgePlot.

(** ** The flowline model of OGGM, as the notebooks use it *)

Module Flowline.

(** [LinearMassBalance(ela_h, grad=...)]. *)
Record LinearMassBalance : Type := mkLinearMassBalance {
  ela_h : Q;
  grad : Q
}.

(** One advance of the model clock, with the mass balance model that was
    attached to the model while the advance was computed. *)
Record advance : Type := mkAdvance {
  adv_from : Z;
  adv_to : Z;
  adv_mb : LinearMassBalance
}.

Section Model.
(** The flowline geometry, the numerical scheme that evolves it between
    two years under a mass balance model, and the scalar summaries of a
    geometry are OGGM's; the notebooks only call them. *)
Context {geometry : Type}.
Variable evolve : LinearMassBalance -> Z -> Z -> geometry -> geometry.
Variables length_m_of area_km2_of volume_km3_of : geometry -> Q.

Record flowline_model : Type := mkModel {
  yr : Z;
  mb_model : LinearMassBalance;
  fls : geometry;
  history : list advance
}.

(** [FlowlineModel(init_flowline, mb_model=mb_model, y0=y0)]. *)
Definition FlowlineModel (init_flowline : geometry)
    (mb : LinearMassBalance) (y0 : Z) : flowline_model :=
  {| yr := y0; mb_model := mb; fls := init_flowline; history := [] |}.

(** Modelled from the spec: [run_until] is a method of OGGM's flowline
    model, which the notebooks import.  The spec's [advance_to(year)]
    advances the internal state to [year], moves the year counter there,
    and is a no-op when [year] is not later than the current year; the
    notebook text says the same (the model "will not calculate back in
    time").  [history] is a ghost field: it logs each advance. *)
Definition run_until (y1 : Z) (m : flowline_model) : flowline_model :=
  if decide (yr m < y1) then
    {| yr := y1;
       mb_model := mb_model m;
       fls := evolve (mb_model m) (yr m) y1 (fls m);
       history := history m ++ [mkAdvance (yr m) y1 (mb_model m)] |}
  else m.

(** [model.mb_model = mb]. *)
Definition set_mb_model (mb : LinearMassBalance) (m : flowline_model)
  : flowline_model :=
  {| yr := yr m; mb_model := mb; fls := fls m; history := history m |}.

Definition length_m (m : flowline_model) : Q := length_m_of (fls m).
Definition area_km2 (m : flowline_model) : Q := area_km2_of (fls m).
Definition volume_km3 (m : flowline_model) : Q := volume_km3_of (fls m).

(** The model as it stands after each checkpoint of [yrs] in turn. *)
Fixpoint states_after (yrs : list Z) (m : flowline_model)
  : list flowline_model :=
  match yrs with
  | [] => []
  | y :: yrs => let m' := run_until y m in m' :: states_after yrs m'
  end.

(** *** flowline_model notebook: the loop that stores length and volume *)

Definition record_step (st : flowline_model * list Q * list Q) (i yr : Z)
  : result (flowline_model * list Q * list Q) :=
  let '(model, length, vol) := st in
  let model := run_until yr model in
  length ← setitem length i (length_m model);
  vol ← setitem vol i (volume_km3 model);
  Ok (model, length, vol).

Definition record_run (yrs : list Z) (model : flowline_model)
  : result (flowline_model * list Q * list Q) :=
  let nsteps := len yrs in
  length ← zeros nsteps;
  vol ← zeros nsteps;
  for_enumerate record_step 0 yrs (model, length, vol).

(** *** ELA changes notebook: the run with three ELA stages *)

Record stage_state : Type := mkStage {
  st_model : flowline_model;
  st_current_ela : Q;
  st_ela : list Q;
  st_length : list Q;
  st_area : list Q;
  st_volume : list Q
}.

Definition stage_step (st : stage_state) (i yr : Z) : result stage_state :=
  let model := run_until yr (st_model st) in
  let current_ela := st_current_ela st in
  let '(current_ela, model) :=
    if decide (100 <= yr)
    then (2800%Q, set_mb_model (mkLinearMassBalance 2800 4) model)
    else (current_ela, model) in
  let '(current_ela, model) :=
    if decide (500 <= yr)
    then (3200%Q, set_mb_model (mkLinearMassBalance 3200 4) model)
    else (current_ela, model) in
  ela ← setitem (st_ela st) i current_ela;
  length ← setitem (st_length st) i (length_m model);
  area ← setitem (st_area st) i (area_km2 model);
  volume ← setitem (st_volume st) i (volume_km3 model);
  Ok (mkStage model current_ela ela length area volume).

Definition stage_yrs : result (list Z) := arange 0 901 5.

Definition stage_run (spinup_fls : geometry) : result stage_state :=
  let mb_model := mkLinearMassBalance 3000 4 in
  let model := FlowlineModel spinup_fls mb_model 0 in
  yrs ← stage_yrs;
  let nsteps := len yrs in
  ela ← zeros nsteps;
  length ← zeros nsteps;
  area ← zeros nsteps;
  volume ← zeros nsteps;
  for_enumerate stage_step 0 yrs (mkStage model 3000 ela length area volume).

(** What one pass of the loop body does to the model and to [current_ela],
    leaving the arrays aside. *)
Definition stage_advance (s : flowline_model * Q) (y : Z)
  : flowline_model * Q :=
  let m := run_until y s.1 in
  let s1 :=
    if decide (100 <= y)
    then (set_mb_model (mkLinearMassBalance 2800 4) m, 2800%Q)
    else (m, s.2) in
  if decide (500 <= y)
  then (set_mb_model (mkLinearMassBalance 3200 4) s1.1, 3200%Q)
  else s1.

Fixpoint stage_trace (yrs : list Z) (s : flowline_model * Q)
  : list (flowline_model * Q) :=
  match yrs with
  | [] => []
  | y :: yrs => let s' := stage_advance s y in s' :: stage_trace yrs s'
  end.

End Model.

End Flowline.

(** ** The recording loop when the stepping of the model fails *)

Module Unstable.

Section Model.
(** OGGM's numerical scheme can give up on an advance (the spec's
    NumericalInstability): [evolve] then raises instead of returning a
    geometry. *)
Context {geometry : Type}.
Variable evolve :
  Flowline.LinearMassBalance -> Z -> Z -> geometry -> result geometry.
Variables length_m_of volume_km3_of : geometry -> Q.

(** Modelled from the spec: [run_until] is a method of OGGM's flowline
    model, which the notebooks import.  This is [Flowline.run_until] with
    the failure the spec gives to the stepping operation of the external
    model: the failure is propagated unchanged, and a request that is not
    later than the current year is a no-op that cannot fail. *)
Definition run_until (y1 : Z) (m : Flowline.flowline_model)
  : result Flowline.flowline_model :=
  if decide (Flowline.yr m < y1) then
    g ← evolve (Flowline.mb_model m) (Flowline.yr m) y1 (Flowline.fls m);
    Ok {| Flowline.yr := y1;
          Flowline.mb_model := Flowline.mb_model m;
          Flowline.fls := g;
          Flowline.history :=
            Flowline.history m
            ++ [Flowline.mkAdvance (Flowline.yr m) y1 (Flowline.mb_model m)] |}
  else Ok m.

(** The model as it stands after each checkpoint of [yrs] in turn, up to
    the first advance that fails. *)
Fixpoint states_after (yrs : list Z) (m : Flowline.flowline_model)
  : result (list Flowline.flowline_model) :=
  match yrs with
  | [] => Ok []
  | y :: yrs => m' ← run_until y m; l ← states_after yrs m'; Ok (m' :: l)
  end.

(** The body and the loop of the flowline_model notebook, as in
    [Flowline.record_step] and [Flowline.record_run]. *)
Definition record_step (st : Flowline.flowline_model * list Q * list Q)
    (i yr : Z) : result (Flowline.flowline_model * list Q * list Q) :=
  let '(model, length, vol) := st in
  model ← run_until yr model;
  length ← setitem length i (Flowline.length_m length_m_of model);
  vol ← setitem vol i (Flowline.volume_km3 volume_km3_of model);
  Ok (model, length, vol).

Definition record_run (yrs : list Z) (model : Flowline.flowline_model)
  : result (Flowline.flowline_model * list Q * list Q) :=
  let nsteps := len yrs in
  length ← zeros nsteps;
  vol ← zeros nsteps;
  for_enumerate record_step 0 yrs (model, length, vol).

End Model.

End Unstable.

(** ** Bed and width profiles *)

Module Geometry.

(** [np.linspace(start, stop, num)] (endpoint included), following numpy's
    own steps: [arange(0, num) * step + start] with
    [step = (stop - start) / (num - 1)], the last sample overwritten with
    [stop] when there is more than one; a single sample is [start]; a
    negative [num] is a [ValueError]. *)
Definition linspace (start stop : Q) (num : Z) : result (list Q) :=
  if decide (num < 0) then Raise ValueError
  else
    let div := num - 1 in
    let delta := (stop - start)%Q in
    let y := inject_Z <$> seqZ 0 num in
    let y :=
      if decide (0 < div) then
        let step := (delta / inject_Z div)%Q in
        if Qeq_bool step 0
        then (fun v => v / inject_Z div * delta)%Q <$> y
        else (fun v => v * step)%Q <$> y
      else (fun v => v * delta)%Q <$> y in
    let y := (fun v => v + start)%Q <$> y in
    Ok (if decide (1 < num) then <[Z.to_nat (num - 1) := stop]> y else y).

(** The cell [bed_h = np.linspace(3400, 1400, nx)]; the notebooks that go
    through [edu.define_linear_bed(top, bottom, nx)] pass the two altitudes
    as variables, so they are parameters here. *)
Definition bed_h (top bottom : Q) (nx : Z) : result (list Q) :=
  linspace top bottom nx.

(** [first] and [last] element of a profile. *)
Definition first (a : list Q) : result Q := getitem a 0.
Definition final (a : list Q) : result Q := getitem a (-1).

(** Bounds of a slice [a[lo:hi]]: negative bounds count from the end, and
    both are clipped to the array. *)
Definition slice_bound {A} (a : list A) (k : Z) : Z :=
  if decide (k < 0) then Z.max 0 (k + len a) else Z.min k (len a).

(** [a[lo:hi] = v] with a scalar [v]. *)
Definition setslice {A} (a : list A) (lo hi : Z) (v : A) : list A :=
  let lo := slice_bound a lo in
  let hi := slice_bound a hi in
  imap (fun i x => if decide (lo <= Z.of_nat i < hi) then v else x) a.

(** [widths = np.zeros(nx) + initial_width/map_dx]. *)
Definition widths (nx : Z) (initial_width map_dx : Q) : result (list Q) :=
  z ← zeros nx;
  Ok (fmap (M := list) (fun w => w + initial_width / map_dx)%Q z).

(** [wider_widths = np.copy(widths); wider_widths[0:15] = new_width/map_dx]. *)
Definition wider_widths (widths : list Q) (new_width map_dx : Q) : list Q :=
  let wider_widths := widths in
  setslice wider_widths 0 15 (new_width / map_dx)%Q.

(** Modelled from the spec: [edu.define_widths_with_trapezoidal_shape_at_top]
    belongs to the oggm_edu package, which the notebooks import.  The spec's
    [build_trapezoidal_width(top_width, ela_width, grid_count,
    accumulation_fraction)] is [top_width] on the top
    [accumulation_fraction * grid_count] indices, rounded down, and
    [ela_width] on all remaining indices; it fails with InvalidConfiguration
    when [grid_count <= 0] or the fraction is outside [0, 1]. *)
Definition build_trapezoidal_width (top_width ela_width : Q) (grid_count : Z)
    (accumulation_fraction : Q) : result (list Q) :=
  if decide (grid_count <= 0) then Raise InvalidConfiguration
  else if Qlt_le_dec accumulation_fraction 0 then Raise InvalidConfiguration
  else if Qlt_le_dec 1 accumulation_fraction then Raise InvalidConfiguration
  else
    let top := Qfloor (accumulation_fraction * inject_Z grid_count) in
    Ok ((fun i => if decide (i < top) then top_width else ela_width)
          <$> seqZ 0 grid_count).

End Geometry.

(** ** The no-flow equilibrium surface *)

Module Equilibrium.

(** Modelled from the spec: the balance of the linear mass balance law,
    [gradient * (surface - ela)]; the notebook gets it as the sum of
    [edu.linear_accumulation] and [edu.linear_ablation], both of oggm_edu. *)
Definition balance (gradient ela surface : Q) : Q :=
  (gradient * (surface - ela))%Q.

(** Modelled from the spec: [edu.correct_to_bed] is in oggm_edu.  Where the
    implied ice thickness [surface - bed] is negative the surface is reset
    to the bed elevation at that index. *)
Definition correct_to_bed (bed surface : Q) : Q :=
  if Qlt_le_dec (surface - bed) 0 then bed else surface.

(** Modelled from the spec: [reconstruct(initial_surface, bedrock, ela,
    gradient)], index by index.  The profile has the length of the bedrock
    profile; two inputs of different lengths are rejected, as numpy rejects
    the sum of two arrays of different lengths. *)
Definition reconstruct (initial_surface bedrock : list Q) (ela gradient : Q)
  : result (list Q) :=
  if decide (length initial_surface = length bedrock) then
    Ok (zip_with
          (fun s b =>
             let candidate := (s + balance gradient ela s)%Q in
             correct_to_bed b candidate)
          initial_surface bedrock)
  else Raise ValueError.

End Equilibrium.

(** ** More numpy: reductions, masks and index arrays *)

Module Np.

Definition qmax (a b : Q) : Q := if Qlt_le_dec a b then b else a.
Definition qmin (a b : Q) : Q := if Qlt_le_dec b a then b else a.

(** [np.max(a)] and [np.min(a)]; an empty array is a [ValueError]. *)
Definition amax (a : list Q) : result Q :=
  match a with
  | [] => Raise ValueError
  | x :: xs => Ok (foldl qmax x xs)
  end.

Definition amin (a : list Q) : result Q :=
  match a with
  | [] => Raise ValueError
  | x :: xs => Ok (foldl qmin x xs)
  end.

(** [np.where(mask)[0]]: the indices at which the mask holds, in order;
    [where_from i mask] numbers the mask from [i]. *)
Fixpoint where_from (i : Z) (mask : list bool) : list Z :=
  match mask with
  | [] => []
  | b :: mask =>
      if b then i :: where_from (i + 1) mask else where_from (i + 1) mask
  end.

Definition where_ (mask : list bool) : list Z := where_from 0 mask.

(** [a[idx]] for an array of indices: every index is read, so one index
    out of range is an [IndexError]. *)
Fixpoint take_ {A} (a : list A) (idx : list Z) : result (list A) :=
  match idx with
  | [] => Ok []
  | i :: idx => x ← getitem a i; xs ← take_ a idx; Ok (x :: xs)
  end.

End Np.

(** ** surging_experiment.ipynb, ice_flow_parameters.ipynb: the distance axis *)

Module Grid.

(** [distance_along_glacier = np.linspace(0, nx, nx) * 0.1]. *)
Definition distance_along_glacier (nx : Z) : result (list Q) :=
  l ← Geometry.linspace 0 (inject_Z nx) nx;
  Ok (fmap (M := list) (fun v => v * (1 # 10))%Q l).

End Grid.

(** ** ELA changes notebook: the two time constants *)

Module ResponseTime.

Section Float64.
(** The cell computes on float64 values.  A finite float is a rational,
    and [>=], [<=], [np.max], [np.min] and [np.abs] are exact on floats;
    each [-], [*] and [+] returns the rounded result.  The rounding is left
    open: [fsub], [fmul] and [fadd] are any three functions. *)
Variables fsub fmul fadd : Q -> Q -> Q.

(** [y1 = yrs[np.where(volume >= (np.max(volume)-volume[0])*tl+volume[0])][0]] *)
Definition y1 (yrs : list Z) (volume : list Q) (tl : Q) : result Z :=
  vmax ← Np.amax volume;
  v0 ← getitem volume 0;
  v0' ← getitem volume 0;
  let threshold := fadd (fmul (fsub vmax v0) tl) v0' in
  sel ← Np.take_ yrs (Np.where_ ((fun v => Qle_bool threshold v) <$> volume));
  getitem sel 0.

(** [y2 = yrs[np.where(volume <= np.max(volume)
                       - np.abs((np.max(volume)-np.min(volume))*tl))][0]] *)
Definition y2 (yrs : list Z) (volume : list Q) (tl : Q) : result Z :=
  vmax ← Np.amax volume;
  vmax' ← Np.amax volume;
  vmin ← Np.amin volume;
  let threshold := fsub vmax (Qabs (fmul (fsub vmax' vmin) tl)) in
  sel ← Np.take_ yrs (Np.where_ ((fun v => Qle_bool v threshold) <$> volume));
  getitem sel 0.

End Float64.

End ResponseTime.

(** ** advance_and_retreat.ipynb: the ELA where the width first hits ELAW *)

Module AdvanceRetreat.

(** [ela = bed_h[np.where(widths==ELAW)[0][0]]] *)
Definition ela (bed_h widths : list Q) (ELAW : Q) : result Q :=
  i ← getitem (Np.where_ ((fun w => Qeq_bool w ELAW) <$> widths)) 0;
  getitem bed_h i.

End AdvanceRetreat.

(** ** The integers of the schedule cell *)

Module Int64.

(** The loop index of the schedule cell is an element of
    [np.arange(0, no_surges, 1)], a 64-bit integer, and so is every sum and
    product it enters; a Python integer that meets it must fit in 64 bits
    too.  The cell computes what unbounded arithmetic computes as long as
    every value fits. *)
Definition fits (z : Z) : Prop := - 2 ^ 63 <= z < 2 ^ 63.

(** The values the loop body computes for surge number [i]: the operands
    and the partial sums of the four bounds of its two [np.arange]. *)
Definition cycle_values (t_slow period_s i : Z) : list Z :=
  [ t_slow + 1; t_slow * i; t_slow + 1 + t_slow * i; period_s * i;
    t_slow + 1 + t_slow * i + period_s * i;
    t_slow + period_s + 1; t_slow + period_s + 1 + t_slow * i;
    t_slow + period_s + 1 + t_slow * i + period_s * i;
    t_slow + period_s + 10; t_slow + period_s + 10 + t_slow * i;
    t_slow + period_s + 10 + t_slow * i + period_s * i;
    2 * t_slow + period_s + 10; 2 * t_slow + period_s + 10 + t_slow * i;
    2 * t_slow + period_s + 10 + t_slow * i + period_s * i ].

(** A parameter of at most 30 bits. *)
Definition small (z : Z) : Prop := - 2 ^ 30 <= z <= 2 ^ 30.

End Int64.

(** ** Closed forms of the schedules, used to state and prove the properties *)

(** The three kinds of blocks the cell appends when [t_slow = 100] and
    [period_s = 10]. *)
Definition spinup_years : list Z := (fun k => 0 + k * 10) <$> seqZ 0 11.
Definition surge_years (c : Z) : list Z := seqZ (101 + 110 * c) 10.
Definition quiet_years (c : Z) : list Z :=
  (fun k => (120 + 110 * c) + k * 10) <$> seqZ 0 10.

Fixpoint cycles (n : nat) : list (Z * bool) :=
  match n with
  | O => []
  | S n =>
      cycles n ++ Surging.tagged true (surge_years (Z.of_nat n))
               ++ Surging.tagged false (quiet_years (Z.of_nat n))
  end.

(** The ELA in force at year [y] according to the three stages. *)
Definition stage_ela (y : Z) : Q :=
  if decide (500 <= y) then 3200%Q
  else if decide (100 <= y) then 2800%Q else 3000%Q.

(** The checkpoints of the notebook: 0, 5, ..., 900. *)
Definition stage_years : list Z := (fun k => 0 + k * 5) <$> seqZ 0 181.

(** Indices of [yrs] at which the ten surge windows start. *)
Definition window_starts : list Z := (fun c => 11 + 20 * c) <$> seqZ 0 10.

(** The blocks of the surge cell for any [t_slow] and [period_s]: the
    quiet years up to [t_slow], then per surge [c] the dense years and the
    quiet years that follow. *)
Definition gen_spinup (t_slow : Z) : list Z :=
  (fun k => 0 + k * 10) <$> seqZ 0 (cdiv (t_slow + 1 - 0) 10).
Definition gen_surge (t_slow period_s c : Z) : list Z :=
  seqZ (t_slow + 1 + t_slow * c + period_s * c) period_s.
Definition gen_quiet (t_slow period_s c : Z) : list Z :=
  (fun k => (t_slow + period_s + 10 + t_slow * c + period_s * c) + k * 10)
    <$> seqZ 0 (cdiv t_slow 10).

Fixpoint gen_cycles (t_slow period_s : Z) (n : nat) : list (Z * bool) :=
  match n with
  | O => []
  | S n =>
      gen_cycles t_slow period_s n
        ++ Surging.tagged true (gen_surge t_slow period_s (Z.of_nat n))
        ++ Surging.tagged false (gen_quiet t_slow period_s (Z.of_nat n))
  end.

(** The spans the plotting loop collects over [n] indices from [i0], when
    [hit] tells where the test holds and [span] what is read there. *)
Fixpoint spans_from (hit : nat -> bool) (span : nat -> Z * Z) (i0 n : nat)
  : list (Z * Z) :=
  match n with
  | O => []
  | S n => (if hit i0 then [span i0] else []) ++ spans_from hit span (S i0) n
  end.

(** Where the windows start in the notebook's schedule, and the span
    drawn there. *)
Definition starts_window (i : nat) : bool :=
  bool_decide (11 <= i)%nat && bool_decide ((i - 11) mod 20 = 0)%nat.
Definition window_span (i : nat) : Z * Z :=
  (100 + 110 * Z.of_nat ((i - 11) / 20), 110 + 110 * Z.of_nat ((i - 11) / 20)).

(** * Properties *)

(** ** Loops and ranges *)

Lemma for_each_app {A S} (body : S -> A -> result S) (xs ys : list A) (s : S) :
  for_each body (xs ++ ys) s = s' ← for_each body xs s; for_each body ys s'.
Proof.
  revert s. induction xs as [|x xs IH]; intros s; simpl; [done|].
  destruct (body s x) as [s'|e]; simpl; [apply IH|done].
Qed.

Lemma bind_Ok {A B} (a : A) (f : A -> result B) : (Ok a ≫= f) = f a.
Proof. reflexivity. Qed.

Lemma fmap_Ok {A B} (a : A) (f : A -> B) : f <$> Ok a = Ok (f a).
Proof. reflexivity. Qed.

Lemma cdiv_unit (a : Z) : cdiv a 1 = a.
Proof. unfold cdiv. rewrite Z.div_1_r. lia. Qed.

Lemma cdiv_exact (n step : Z) : step ≠ 0 -> cdiv (step * n) step = n.
Proof.
  intros Hs. unfold cdiv.
  replace (- (step * n)) with ((- n) * step) by lia.
  rewrite Z.div_mul by done. lia.
Qed.

Lemma arange_unit (a b : Z) : arange a b 1 = Ok (seqZ a (b - a)).
Proof.
  unfold arange. rewrite decide_False by done. f_equal.
  rewrite cdiv_unit. trans (Z.add a <$> seqZ 0 (b - a)).
  - apply list_fmap_ext. intros _ k _. lia.
  - by rewrite fmap_add_seqZ, Z.add_0_r.
Qed.

Lemma arange_ok (a b step : Z) :
  step ≠ 0 ->
  arange a b step = Ok ((fun k => a + k * step) <$> seqZ 0 (cdiv (b - a) step)).
Proof. intros Hs. unfold arange. by rewrite decide_False. Qed.

(** ** The surge schedule with the notebook's [t_slow] and [period_s] *)

Lemma surge_cycle_tagged_shape (sched : list (Z * bool)) (c : Z) :
  Surging.surge_cycle_tagged 100 10 sched c =
  Ok (sched ++ Surging.tagged true (surge_years c)
            ++ Surging.tagged false (quiet_years c)).
Proof.
  unfold Surging.surge_cycle_tagged.
  rewrite arange_unit, bind_Ok, arange_ok, bind_Ok by done.
  replace (100 + 10 + 1 + 100 * c + 10 * c - (100 + 1 + 100 * c + 10 * c))
    with 10 by lia.
  replace (2 * 100 + 10 + 10 + 100 * c + 10 * c
           - (100 + 10 + 10 + 100 * c + 10 * c)) with (10 * 10) by lia.
  rewrite cdiv_exact by done.
  replace (100 + 1 + 100 * c + 10 * c) with (101 + 110 * c) by lia.
  replace (100 + 10 + 10 + 100 * c + 10 * c) with (120 + 110 * c) by lia.
  unfold append. by rewrite <- (assoc_L (++)).
Qed.

Lemma schedule_cycles (n : nat) (sched : list (Z * bool)) :
  for_each (Surging.surge_cycle_tagged 100 10) (seqZ 0 (Z.of_nat n)) sched
  = Ok (sched ++ cycles n).
Proof.
  induction n as [|n IH].
  - simpl. by rewrite (right_id_L [] (++)).
  - rewrite seqZ_S, for_each_app, IH, bind_Ok. cbn [for_each].
    rewrite surge_cycle_tagged_shape, bind_Ok, Z.add_0_l.
    cbn [cycles]. by rewrite <- (assoc_L (++)).
Qed.

Lemma schedule_shape (N : Z) :
  Surging.schedule 100 10 N =
  Ok (Surging.tagged false spinup_years ++ cycles (Z.to_nat N)).
Proof.
  unfold Surging.schedule.
  rewrite (arange_ok 0 (100 + 1) 10), bind_Ok by done.
  rewrite arange_unit, bind_Ok, Z.sub_0_r.
  replace (seqZ 0 N) with (seqZ 0 (Z.of_nat (Z.to_nat N))).
  - rewrite schedule_cycles. reflexivity.
  - destruct (decide (0 <= N)) as [?|?]; [by rewrite Z2Nat.id|].
    rewrite !seqZ_nil; [done|lia..].
Qed.

Lemma fst_tagged (b : bool) (ys : list Z) : (Surging.tagged b ys).*1 = ys.
Proof.
  unfold Surging.tagged.
  induction ys as [|y ys IH]; csimpl; [done|]. by rewrite IH.
Qed.

Lemma snd_tagged (b : bool) (ys : list Z) :
  (Surging.tagged b ys).*2 = replicate (length ys) b.
Proof.
  unfold Surging.tagged.
  induction ys as [|y ys IH]; csimpl; [done|]. by rewrite IH.
Qed.

(** Erasing the tags of [schedule] gives [yrs]: both run the same cell. *)
Lemma yrs_cycle_erase (t_slow period_s : Z) (sched : list (Z * bool)) (i : Z) :
  Surging.surge_cycle t_slow period_s (sched.*1) i =
  fmap (M := list) fst <$> Surging.surge_cycle_tagged t_slow period_s sched i.
Proof.
  unfold Surging.surge_cycle, Surging.surge_cycle_tagged.
  rewrite arange_unit, !bind_Ok, arange_ok, !bind_Ok, fmap_Ok by done.
  unfold append. by rewrite !fmap_app, !fst_tagged.
Qed.

Lemma yrs_loop_erase (t_slow period_s : Z) (surges : list Z)
    (sched : list (Z * bool)) :
  for_each (Surging.surge_cycle t_slow period_s) surges (sched.*1) =
  fmap (M := list) fst <$>
    for_each (Surging.surge_cycle_tagged t_slow period_s) surges sched.
Proof.
  revert sched.
  induction surges as [|i surges IH]; intros sched; cbn [for_each]; [done|].
  rewrite yrs_cycle_erase.
  destruct (Surging.surge_cycle_tagged t_slow period_s sched i) as [s'|e];
    [rewrite fmap_Ok, !bind_Ok; apply IH|done].
Qed.

Lemma yrs_erase (t_slow period_s no_surges : Z) :
  Surging.yrs t_slow period_s no_surges =
  fmap (M := list) fst <$> Surging.schedule t_slow period_s no_surges.
Proof.
  unfold Surging.yrs, Surging.schedule.
  rewrite (arange_ok 0 (t_slow + 1) 10), !bind_Ok by done.
  rewrite arange_unit, !bind_Ok.
  by rewrite <- yrs_loop_erase, fst_tagged.
Qed.

(** C1: with [t_slow = 100], [period_s = 10] and one surge the cell yields
    the eleven quiet checkpoints 0, 10, ..., 100, then the ten consecutive
    surge years 101..110, then quiet checkpoints every ten years from 120. *)
Theorem C1_one_cycle_schedule :
  Surging.schedule 100 10 1 =
    Ok (Surging.tagged false [0; 10; 20; 30; 40; 50; 60; 70; 80; 90; 100]
        ++ Surging.tagged true [101; 102; 103; 104; 105; 106; 107; 108; 109; 110]
        ++ Surging.tagged false [120; 130; 140; 150; 160; 170; 180; 190; 200; 210])
  /\ Surging.yrs 100 10 1 =
    Ok ([0; 10; 20; 30; 40; 50; 60; 70; 80; 90; 100]
        ++ [101; 102; 103; 104; 105; 106; 107; 108; 109; 110]
        ++ [120; 130; 140; 150; 160; 170; 180; 190; 200; 210]).
Proof. split; vm_compute; reflexivity. Qed.

(** ** Runs of surge years *)

Lemma runs_from_false_split (cur : nat) (l l' : list bool) :
  runs_from cur (l ++ false :: l') = runs_from cur (l ++ [false]) ++ runs_from 0 l'.
Proof.
  revert cur. induction l as [|b l IH]; intros cur; simpl.
  - by rewrite (right_id_L [] (++)).
  - destruct b; [apply IH|]. by rewrite IH, (assoc_L (++)).
Qed.

Lemma cycles_flags (n : nat) :
  (cycles (S n)).*2 = (cycles n).*2 ++ replicate 10 true ++ replicate 10 false.
Proof.
  cbn [cycles]. rewrite !fmap_app, !snd_tagged.
  unfold surge_years, quiet_years. by rewrite length_fmap, !length_seqZ.
Qed.

Lemma schedule_runs (n : nat) :
  (exists l, replicate 11 false ++ (cycles n).*2 = l ++ [false])
  /\ runs_from 0 (replicate 11 false ++ (cycles n).*2) = replicate n 10%nat.
Proof.
  induction n as [|n [[l Hl] IH]].
  - split; [by exists (replicate 10 false)|done].
  - rewrite cycles_flags, (assoc_L (++)), Hl. split.
    + exists (l ++ [false] ++ replicate 10 true ++ replicate 9 false).
      by rewrite <- !(assoc_L (++)).
    + rewrite <- (assoc_L (++)). cbn [app].
      rewrite runs_from_false_split, <- Hl, IH.
      replace (S n) with (n + 1)%nat by lia. by rewrite replicate_add.
Qed.

(** C2: for a surge count [N >= 0] the tagged schedule has exactly [N]
    maximal runs of surge-tagged years, each of [period_s = 10] years. *)
Theorem C2_perturbation_runs (N : Z) :
  0 <= N ->
  exists sched,
    Surging.schedule 100 10 N = Ok sched
    /\ Z.of_nat (length (perturbation_runs sched)) = N
    /\ Forall (fun r => Z.of_nat r = 10) (perturbation_runs sched).
Proof.
  intros HN. eexists. split; [apply schedule_shape|].
  unfold perturbation_runs. rewrite fmap_app, snd_tagged.
  change (length spinup_years) with 11%nat.
  rewrite (proj2 (schedule_runs _)), length_replicate. split; [lia|].
  apply Forall_replicate. lia.
Qed.

Lemma C2_perturbation_runs_witness :
  0 <= 10 /\
  exists sched,
    Surging.schedule 100 10 10 = Ok sched
    /\ Z.of_nat (length (perturbation_runs sched)) = 10
    /\ Forall (fun r => Z.of_nat r = 10) (perturbation_runs sched).
Proof. split; [lia|apply (C2_perturbation_runs 10); lia]. Defined.

(** ** The schedule is increasing *)

Lemma sorted_fmap_seqZ (f : Z -> Z) (m n : Z) :
  (forall a b, a < b -> f a < f b) ->
  StronglySorted Z.lt (f <$> seqZ m n).
Proof.
  intros Hf. destruct (decide (0 <= n)) as [Hn|Hn].
  - rewrite <- (Z2Nat.id n Hn). generalize (Z.to_nat n) as k. clear n Hn.
    induction k as [|k IH]; [constructor|].
    rewrite seqZ_S, fmap_app. apply StronglySorted_app_2; [|done|].
    + intros x1 x2 [a [-> Ha]]%list_elem_of_fmap_1 Hx2.
      apply list_elem_of_singleton in Hx2 as ->.
      apply Hf. apply elem_of_seqZ in Ha. lia.
    + repeat constructor.
  - rewrite seqZ_nil by lia. constructor.
Qed.

Lemma sorted_lt_NoDup (l : list Z) : StronglySorted Z.lt l -> NoDup l.
Proof.
  induction 1 as [|x l _ IH Hx]; constructor; [|done].
  intros Hin. rewrite Forall_forall in Hx. specialize (Hx _ Hin). lia.
Qed.

Lemma surge_years_bounds (c y : Z) :
  y ∈ surge_years c -> 101 + 110 * c <= y <= 110 + 110 * c.
Proof. unfold surge_years. rewrite elem_of_seqZ. lia. Qed.

Lemma quiet_years_bounds (c y : Z) :
  y ∈ quiet_years c -> 120 + 110 * c <= y <= 210 + 110 * c.
Proof.
  unfold quiet_years. intros [k [-> Hk]]%list_elem_of_fmap_1.
  apply elem_of_seqZ in Hk. lia.
Qed.

Lemma spinup_years_bounds (y : Z) : y ∈ spinup_years -> 0 <= y <= 100.
Proof.
  unfold spinup_years. intros [k [-> Hk]]%list_elem_of_fmap_1.
  apply elem_of_seqZ in Hk. lia.
Qed.

Lemma cycles_years (n : nat) :
  (cycles (S n)).*1 =
  (cycles n).*1 ++ surge_years (Z.of_nat n) ++ quiet_years (Z.of_nat n).
Proof. cbn [cycles]. by rewrite !fmap_app, !fst_tagged. Qed.

Lemma schedule_sorted (n : nat) :
  StronglySorted Z.lt (spinup_years ++ (cycles n).*1)
  /\ Forall (fun y => y <= 100 + 110 * Z.of_nat n) (spinup_years ++ (cycles n).*1).
Proof.
  induction n as [|n [IHs IHb]].
  - cbn [cycles]. rewrite fmap_nil, (right_id_L [] (++)). split.
    + apply sorted_fmap_seqZ. intros; lia.
    + apply Forall_forall. intros y Hy%spinup_years_bounds. lia.
  - rewrite cycles_years, (assoc_L (++)). rewrite Forall_forall in IHb. split.
    + apply StronglySorted_app_2; [|done|].
      * intros x1 x2 Hx1%IHb [Hx2%surge_years_bounds|Hx2%quiet_years_bounds]%elem_of_app;
          lia.
      * apply StronglySorted_app_2.
        -- intros x1 x2 Hx1%surge_years_bounds Hx2%quiet_years_bounds. lia.
        -- unfold surge_years. rewrite <- (list_fmap_id (seqZ _ _)).
           apply sorted_fmap_seqZ. by intros.
        -- apply sorted_fmap_seqZ. intros; lia.
    + apply Forall_forall.
      intros y [Hy%IHb|[Hy%surge_years_bounds|Hy%quiet_years_bounds]%elem_of_app]%elem_of_app;
        lia.
Qed.

(** ** Arrays filled by index *)

Lemma len_app_singleton {A} (pre : list A) (v : A) :
  len (pre ++ [v]) = len pre + 1.
Proof. unfold len. rewrite length_app. simpl. lia. Qed.

Lemma setitem_next {A} (pre rest : list A) (x v : A) :
  setitem (pre ++ x :: rest) (len pre) v = Ok (pre ++ v :: rest).
Proof.
  unfold setitem, len.
  destruct (decide (Z.of_nat (length pre) < 0)) as [?|_]; [lia|].
  destruct (decide (0 <= _ < _)) as [_|Hn].
  - rewrite Nat2Z.id. f_equal.
    rewrite insert_app_r_alt by lia. by rewrite Nat.sub_diag.
  - rewrite length_app in Hn. simpl in Hn. lia.
Qed.

Lemma zeros_len {A} (xs : list A) :
  zeros (len xs) = Ok (replicate (length xs) 0%Q).
Proof. unfold zeros, len. rewrite decide_False by lia. by rewrite Nat2Z.id. Qed.

(** ** The loop that records length and volume *)

Section RecordLoop.
Context {geometry : Type}.
Variable evolve : Flowline.LinearMassBalance -> Z -> Z -> geometry -> geometry.
Variables length_m_of volume_km3_of : geometry -> Q.

Local Abbreviation run_until := (Flowline.run_until evolve).
Local Abbreviation states_after := (Flowline.states_after evolve).
Local Abbreviation length_m := (Flowline.length_m length_m_of).
Local Abbreviation volume_km3 := (Flowline.volume_km3 volume_km3_of).
Local Abbreviation record_step :=
  (Flowline.record_step evolve length_m_of volume_km3_of).
Local Abbreviation record_run :=
  (Flowline.record_run evolve length_m_of volume_km3_of).

Lemma run_until_yr (y1 : Z) (m : Flowline.flowline_model) :
  Flowline.yr (run_until y1 m) = Z.max (Flowline.yr m) y1.
Proof.
  unfold Flowline.run_until. destruct (decide (Flowline.yr m < y1)); simpl; lia.
Qed.

Lemma record_step_next (m : Flowline.flowline_model (geometry := geometry))
    (pre_l pre_v rest_l rest_v : list Q) (x_l x_v : Q) (y : Z) :
  length pre_l = length pre_v ->
  record_step (m, pre_l ++ x_l :: rest_l, pre_v ++ x_v :: rest_v) (len pre_l) y
  = Ok (run_until y m,
        pre_l ++ length_m (run_until y m) :: rest_l,
        pre_v ++ volume_km3 (run_until y m) :: rest_v).
Proof.
  intros Hlen. unfold Flowline.record_step.
  rewrite setitem_next, bind_Ok.
  replace (len pre_l) with (len pre_v) by (unfold len; lia).
  by rewrite setitem_next, bind_Ok.
Qed.

Lemma record_loop (yrs : list Z) (m : Flowline.flowline_model (geometry := geometry))
    (pre_l pre_v : list Q) :
  length pre_l = length pre_v ->
  for_enumerate record_step (len pre_l) yrs
    (m, pre_l ++ replicate (length yrs) 0%Q, pre_v ++ replicate (length yrs) 0%Q)
  = Ok (foldl (fun m y => run_until y m) m yrs,
        pre_l ++ (length_m <$> states_after yrs m),
        pre_v ++ (volume_km3 <$> states_after yrs m)).
Proof.
  revert m pre_l pre_v.
  induction yrs as [|y yrs IH]; intros m pre_l pre_v Hlen; [done|].
  cbn [for_enumerate length replicate Flowline.states_after foldl].
  rewrite record_step_next, bind_Ok by done.
  rewrite (cons_middle _ pre_l), (cons_middle _ pre_v), !(assoc_L (++)).
  rewrite <- (len_app_singleton pre_l (length_m (run_until y m))).
  rewrite IH by (rewrite !length_app; simpl; lia).
  by rewrite !fmap_cons, <- !(assoc_L (++)).
Qed.

Lemma record_run_states (yrs : list Z) (m : Flowline.flowline_model (geometry := geometry)) :
  record_run yrs m =
  Ok (foldl (fun m y => run_until y m) m yrs,
      length_m <$> states_after yrs m,
      volume_km3 <$> states_after yrs m).
Proof.
  unfold Flowline.record_run. rewrite zeros_len, !bind_Ok.
  apply (record_loop yrs m [] []). done.
Qed.

Lemma length_states_after (yrs : list Z) (m : Flowline.flowline_model (geometry := geometry)) :
  length (states_after yrs m) = length yrs.
Proof.
  revert m. induction yrs as [|y yrs IH]; intros m; simpl; [done|].
  by rewrite IH.
Qed.

(** Along an increasing schedule that does not start before the model's
    clock, the model stands at the checkpoint after each call. *)
Lemma years_reached (yrs : list Z) (m : Flowline.flowline_model (geometry := geometry)) :
  StronglySorted Z.lt yrs ->
  Forall (fun y => Flowline.yr m <= y) yrs ->
  Flowline.yr <$> states_after yrs m = yrs.
Proof.
  intros Hs. revert m.
  induction Hs as [|y yrs _ IH Hy]; intros m Hm; [done|].
  cbn [Flowline.states_after]. rewrite fmap_cons.
  apply Forall_cons in Hm as [Hm0 Hm].
  assert (Flowline.yr (run_until y m) = y) as Hyr
    by (rewrite run_until_yr; lia).
  rewrite Hyr. f_equal. apply IH.
  rewrite Hyr. eapply Forall_impl; [exact Hy|]. intros; simpl in *; lia.
Qed.

End RecordLoop.

Lemma schedule_nonneg (n : nat) :
  Forall (fun y => 0 <= y) (spinup_years ++ (cycles n).*1).
Proof.
  induction n as [|n IH].
  - cbn [cycles]. rewrite fmap_nil, (right_id_L [] (++)).
    apply Forall_forall. intros y Hy%spinup_years_bounds. lia.
  - rewrite cycles_years, (assoc_L (++)).
    apply Forall_app. split; [done|].
    apply Forall_forall.
    intros y [Hy%surge_years_bounds|Hy%quiet_years_bounds]%elem_of_app; lia.
Qed.

Lemma yrs_shape (N : Z) :
  Surging.yrs 100 10 N = Ok (spinup_years ++ (cycles (Z.to_nat N)).*1).
Proof.
  by rewrite yrs_erase, schedule_shape, fmap_Ok, fmap_app, fst_tagged.
Qed.

(** C3: for every surge count the checkpoints of [yrs] are strictly
    increasing, hence without duplicates; and the recording loop, started
    on a model at year 0, stores one length and one volume per checkpoint,
    in order, each taken with the model standing exactly at that
    checkpoint, so the years at which the entries were recorded are the
    schedule itself. *)
Theorem C3_schedule_increasing_and_recorded {geometry : Type}
    (evolve : Flowline.LinearMassBalance -> Z -> Z -> geometry -> geometry)
    (length_m_of volume_km3_of : geometry -> Q)
    (init_flowline : geometry) (mb : Flowline.LinearMassBalance) (N : Z) :
  exists yrs,
    Surging.yrs 100 10 N = Ok yrs
    /\ StronglySorted Z.lt yrs
    /\ NoDup yrs
    /\ exists final length vol,
        Flowline.record_run evolve length_m_of volume_km3_of yrs
          (Flowline.FlowlineModel init_flowline mb 0) = Ok (final, length, vol)
        /\ length =
             Flowline.length_m length_m_of <$>
               Flowline.states_after evolve yrs
                 (Flowline.FlowlineModel init_flowline mb 0)
        /\ vol =
             Flowline.volume_km3 volume_km3_of <$>
               Flowline.states_after evolve yrs
                 (Flowline.FlowlineModel init_flowline mb 0)
        /\ len length = len yrs
        /\ len vol = len yrs
        /\ Flowline.yr <$>
             Flowline.states_after evolve yrs
               (Flowline.FlowlineModel init_flowline mb 0) = yrs
        /\ StronglySorted Z.lt
             (Flowline.yr <$>
                Flowline.states_after evolve yrs
                  (Flowline.FlowlineModel init_flowline mb 0)).
Proof.
  eexists. split; [apply yrs_shape|].
  destruct (schedule_sorted (Z.to_nat N)) as [Hs _].
  split; [done|]. split; [by apply sorted_lt_NoDup|].
  do 3 eexists. split; [apply record_run_states|].
  split; [done|]. split; [done|].
  unfold len. rewrite !length_fmap, !length_states_after.
  split; [done|]. split; [done|].
  rewrite years_reached; [done|done|apply schedule_nonneg].
Qed.

(** ** The model never runs backwards *)

Section RunUntil.
Context {geometry : Type}.
Variable evolve : Flowline.LinearMassBalance -> Z -> Z -> geometry -> geometry.

Local Abbreviation run_until := (Flowline.run_until evolve).

Lemma run_until_behind (y1 : Z) (m : Flowline.flowline_model (geometry := geometry)) :
  y1 <= Flowline.yr m -> run_until y1 m = m.
Proof. intros Hy. unfold Flowline.run_until. by rewrite decide_False by lia. Qed.

Lemma run_until_twice (y1 : Z) (m : Flowline.flowline_model (geometry := geometry)) :
  run_until y1 (run_until y1 m) = run_until y1 m.
Proof. apply run_until_behind. rewrite run_until_yr. lia. Qed.

End RunUntil.

(** C6: asking the model twice for the same year gives the same model and
    so the same year, length and volume; asking for a year that is not
    after the model's year changes nothing; a model run to year 500 and
    then asked for year 450 stays at year 500. *)
Theorem C6_run_until_idempotent {geometry : Type}
    (evolve : Flowline.LinearMassBalance -> Z -> Z -> geometry -> geometry)
    (length_m_of volume_km3_of : geometry -> Q)
    (m : Flowline.flowline_model) (Y Y2 : Z) :
  (Flowline.run_until evolve Y (Flowline.run_until evolve Y m)
     = Flowline.run_until evolve Y m
   /\ Flowline.yr (Flowline.run_until evolve Y (Flowline.run_until evolve Y m))
     = Flowline.yr (Flowline.run_until evolve Y m)
   /\ Flowline.length_m length_m_of
        (Flowline.run_until evolve Y (Flowline.run_until evolve Y m))
     = Flowline.length_m length_m_of (Flowline.run_until evolve Y m)
   /\ Flowline.volume_km3 volume_km3_of
        (Flowline.run_until evolve Y (Flowline.run_until evolve Y m))
     = Flowline.volume_km3 volume_km3_of (Flowline.run_until evolve Y m))
  /\ (Y2 <= Flowline.yr m -> Flowline.run_until evolve Y2 m = m)
  /\ (Flowline.yr m <= 500 ->
      Flowline.yr
        (Flowline.run_until evolve 450 (Flowline.run_until evolve 500 m)) = 500).
Proof.
  split; [|split].
  - by rewrite run_until_twice.
  - apply run_until_behind.
  - intros Hm. rewrite run_until_behind; rewrite run_until_yr; lia.
Qed.

Lemma C6_run_until_idempotent_witness :
  let evolve := fun (mb : Flowline.LinearMassBalance) (y0 y1 ice : Z) =>
                  ice + (y1 - y0) in
  let m := Flowline.run_until evolve 500
             (Flowline.FlowlineModel 0 (Flowline.mkLinearMassBalance 3000 4) 0) in
  450 <= Flowline.yr m
  /\ Flowline.run_until evolve 450 m = m
  /\ Flowline.yr (Flowline.run_until evolve 450 m) = 500.
Proof.
  intros evolve m.
  assert (450 <= Flowline.yr m) as H by (vm_compute; discriminate).
  split; [exact H|]. split.
  - exact (proj1 (proj2 (C6_run_until_idempotent evolve inject_Z inject_Z m 500 450)) H).
  - rewrite (proj1 (proj2 (C6_run_until_idempotent evolve inject_Z inject_Z m 500 450)) H).
    reflexivity.
Defined.

(** ** The run with three ELA stages *)

Section Stages.
Context {geometry : Type}.
Variable evolve : Flowline.LinearMassBalance -> Z -> Z -> geometry -> geometry.
Variables length_m_of area_km2_of volume_km3_of : geometry -> Q.

Local Abbreviation run_until := (Flowline.run_until evolve).
Local Abbreviation length_m := (Flowline.length_m length_m_of).
Local Abbreviation area_km2 := (Flowline.area_km2 area_km2_of).
Local Abbreviation volume_km3 := (Flowline.volume_km3 volume_km3_of).
Local Abbreviation stage_step :=
  (Flowline.stage_step evolve length_m_of area_km2_of volume_km3_of).
Local Abbreviation stage_run :=
  (Flowline.stage_run evolve length_m_of area_km2_of volume_km3_of).
Local Abbreviation stage_advance := (Flowline.stage_advance evolve).
Local Abbreviation stage_trace := (Flowline.stage_trace evolve).

Lemma stage_step_next (m : Flowline.flowline_model (geometry := geometry))
    (cur : Q) (pe pl pa pv re rl ra rv : list Q) (xe xl xa xv : Q) (y : Z) :
  length pl = length pe -> length pa = length pe -> length pv = length pe ->
  stage_step
    (Flowline.mkStage m cur (pe ++ xe :: re) (pl ++ xl :: rl)
       (pa ++ xa :: ra) (pv ++ xv :: rv)) (len pe) y
  = Ok (Flowline.mkStage (stage_advance (m, cur) y).1 (stage_advance (m, cur) y).2
          (pe ++ (stage_advance (m, cur) y).2 :: re)
          (pl ++ length_m (stage_advance (m, cur) y).1 :: rl)
          (pa ++ area_km2 (stage_advance (m, cur) y).1 :: ra)
          (pv ++ volume_km3 (stage_advance (m, cur) y).1 :: rv)).
Proof.
  intros Hl Ha Hv.
  unfold Flowline.stage_step, stage_advance.
  cbn [Flowline.st_model Flowline.st_current_ela Flowline.st_ela
       Flowline.st_length Flowline.st_area Flowline.st_volume fst snd].
  destruct (decide (100 <= y)), (decide (500 <= y)); cbn [fst snd].
  all: rewrite setitem_next, bind_Ok.
  all: replace (len pe) with (len pl) at 1 by (unfold len; lia).
  all: rewrite setitem_next, bind_Ok.
  all: replace (len pe) with (len pa) at 1 by (unfold len; lia).
  all: rewrite setitem_next, bind_Ok.
  all: replace (len pe) with (len pv) at 1 by (unfold len; lia).
  all: by rewrite setitem_next, bind_Ok.
Qed.

Lemma stage_loop (yrs : list Z) (m : Flowline.flowline_model (geometry := geometry))
    (cur : Q) (pe pl pa pv : list Q) :
  length pl = length pe -> length pa = length pe -> length pv = length pe ->
  for_enumerate stage_step (len pe) yrs
    (Flowline.mkStage m cur
       (pe ++ replicate (length yrs) 0%Q) (pl ++ replicate (length yrs) 0%Q)
       (pa ++ replicate (length yrs) 0%Q) (pv ++ replicate (length yrs) 0%Q))
  = Ok (Flowline.mkStage
          (foldl stage_advance (m, cur) yrs).1 (foldl stage_advance (m, cur) yrs).2
          (pe ++ (snd <$> stage_trace yrs (m, cur)))
          (pl ++ (length_m ∘ fst <$> stage_trace yrs (m, cur)))
          (pa ++ (area_km2 ∘ fst <$> stage_trace yrs (m, cur)))
          (pv ++ (volume_km3 ∘ fst <$> stage_trace yrs (m, cur)))).
Proof.
  revert m cur pe pl pa pv.
  induction yrs as [|y yrs IH]; intros m cur pe pl pa pv Hl Ha Hv.
  { cbn. by rewrite !(right_id_L [] (++)). }
  cbn [for_enumerate length replicate stage_trace foldl].
  rewrite stage_step_next, bind_Ok by done.
  destruct (stage_advance (m, cur) y) as [m' cur'] eqn:Hadv. cbn [fst snd].
  rewrite (cons_middle _ pe), (cons_middle _ pl), (cons_middle _ pa),
    (cons_middle _ pv), !(assoc_L (++)).
  rewrite <- (len_app_singleton pe cur').
  rewrite IH by (rewrite !length_app; simpl; lia).
  rewrite !fmap_cons. cbn [fst snd compose].
  by rewrite <- !(assoc_L (++)).
Qed.

Lemma stage_ela_before (lo y : Z) :
  lo < y -> y < 100 -> stage_ela y = stage_ela lo.
Proof. intros. unfold stage_ela. repeat case_decide; done || lia. Qed.

(** One pass from a model standing at [lo] with the ELA of [lo] attached:
    the clock moves to [y], the advance is logged with the ELA of [lo], and
    only then is the ELA of [y] attached. *)
Lemma stage_advance_spec (m : Flowline.flowline_model (geometry := geometry)) (y : Z) :
  Flowline.mb_model m = Flowline.mkLinearMassBalance (stage_ela (Flowline.yr m)) 4 ->
  Flowline.yr m < y ->
  Flowline.yr (stage_advance (m, stage_ela (Flowline.yr m)) y).1 = y
  /\ Flowline.mb_model (stage_advance (m, stage_ela (Flowline.yr m)) y).1
     = Flowline.mkLinearMassBalance (stage_ela y) 4
  /\ (stage_advance (m, stage_ela (Flowline.yr m)) y).2 = stage_ela y
  /\ Flowline.history (stage_advance (m, stage_ela (Flowline.yr m)) y).1
     = Flowline.history m ++
       [Flowline.mkAdvance (Flowline.yr m) y
          (Flowline.mkLinearMassBalance (stage_ela (Flowline.yr m)) 4)].
Proof.
  intros Hmb Hlt. unfold stage_advance, Flowline.run_until. cbn [fst snd].
  destruct (decide (Flowline.yr m < y)) as [_|?]; [|lia].
  destruct (decide (100 <= y)) as [H1|H1], (decide (500 <= y)) as [H5|H5];
    cbn [fst snd Flowline.set_mb_model Flowline.yr Flowline.mb_model
         Flowline.history]; try lia.
  - rewrite Hmb. unfold stage_ela at 1 2. by rewrite decide_True.
  - rewrite Hmb. unfold stage_ela at 1 2.
    by rewrite decide_False, decide_True.
  - rewrite Hmb, (stage_ela_before (Flowline.yr m) y) by lia. done.
Qed.

Lemma stage_trace_sorted (yrs : list Z) (m : Flowline.flowline_model (geometry := geometry)) :
  Flowline.mb_model m = Flowline.mkLinearMassBalance (stage_ela (Flowline.yr m)) 4 ->
  StronglySorted Z.lt (Flowline.yr m :: yrs) ->
  snd <$> stage_trace yrs (m, stage_ela (Flowline.yr m)) = stage_ela <$> yrs
  /\ Flowline.history (foldl stage_advance (m, stage_ela (Flowline.yr m)) yrs).1
     = Flowline.history m ++
       zip_with (fun a b => Flowline.mkAdvance a b
                              (Flowline.mkLinearMassBalance (stage_ela a) 4))
         (Flowline.yr m :: yrs) yrs.
Proof.
  revert m. induction yrs as [|y yrs IH]; intros m Hmb Hs.
  { cbn. by rewrite (right_id_L [] (++)). }
  apply StronglySorted_cons in Hs as [Hlo Hs].
  pose proof (Forall_inv Hlo) as Hy.
  destruct (stage_advance_spec m y Hmb Hy) as (Hyr & Hmb' & Hcur & Hhist).
  cbn [stage_trace foldl zip_with]. rewrite fmap_cons.
  destruct (stage_advance (m, stage_ela (Flowline.yr m)) y) as [m' cur'].
  cbn [fst snd] in *. subst cur' y.
  destruct (IH m' Hmb' Hs) as [IHe IHh].
  by rewrite IHe, IHh, Hhist, <- (assoc_L (++)).
Qed.

Lemma stage_yrs_ok : Flowline.stage_yrs = Ok stage_years.
Proof. reflexivity. Qed.

Lemma stage_years_sorted : StronglySorted Z.lt stage_years.
Proof. apply sorted_fmap_seqZ. intros; lia. Qed.

Lemma stage_years_lookup (i : nat) (y : Z) :
  stage_years !! i = Some y <-> y = 5 * Z.of_nat i /\ (i < 181)%nat.
Proof.
  unfold stage_years. rewrite list_lookup_fmap_Some.
  setoid_rewrite lookup_seqZ. split.
  - intros (k & -> & -> & Hk). lia.
  - intros [-> Hi]. exists (Z.of_nat i). lia.
Qed.

(** The ELA array and the log of advances after the loop, in closed form:
    advance number [i] goes from checkpoint [i] to checkpoint [i + 1] under
    the ELA of checkpoint [i]. *)
Lemma stage_run_trace (spinup_fls : geometry) :
  exists st,
    stage_run spinup_fls = Ok st
    /\ Flowline.st_ela st = stage_ela <$> stage_years
    /\ Flowline.history (Flowline.st_model st) =
         zip_with (fun a b => Flowline.mkAdvance a b
                                (Flowline.mkLinearMassBalance (stage_ela a) 4))
           stage_years (tail stage_years).
Proof.
  unfold Flowline.stage_run. rewrite stage_yrs_ok, bind_Ok.
  rewrite zeros_len, !bind_Ok.
  set (m0 := Flowline.FlowlineModel spinup_fls
               (Flowline.mkLinearMassBalance 3000 4) 0).
  pose proof (stage_loop stage_years m0 3000%Q [] [] [] [] eq_refl eq_refl eq_refl)
    as Hloop.
  cbn [app] in Hloop. change (len []) with 0 in Hloop. rewrite Hloop.
  eexists. split; [reflexivity|]. cbn [Flowline.st_ela Flowline.st_model].
  destruct stage_years as [|y0 rest] eqn:Hyrs; [discriminate|].
  assert (y0 = 0) as -> by (by injection Hyrs).
  pose proof stage_years_sorted as Hs. rewrite Hyrs in Hs.
  assert (stage_advance (m0, 3000%Q) 0 = (m0, 3000%Q)) as Hfirst by reflexivity.
  cbn [stage_trace foldl tail]. rewrite Hfirst.
  destruct (stage_trace_sorted rest m0 eq_refl Hs) as [He Hh].
  change (stage_ela (Flowline.yr m0)) with 3000%Q in He, Hh.
  rewrite fmap_cons, He, Hh. done.
Qed.

End Stages.

(** C10: in the staged run every stored [ela[i]] is 2800 for a checkpoint
    in [100, 500), 3200 from 500 on and 3000 before 100; and the advance
    from one checkpoint to the next is computed with the mass balance model
    whose ELA was stored at the earlier checkpoint, because the model is
    only given its new mass balance after [run_until] has returned: the
    advance that reaches year 100 still uses ELA 3000 and the one that
    reaches year 500 still uses ELA 2800. *)
Theorem C10_staged_ela {geometry : Type}
    (evolve : Flowline.LinearMassBalance -> Z -> Z -> geometry -> geometry)
    (length_m_of area_km2_of volume_km3_of : geometry -> Q)
    (spinup_fls : geometry) :
  exists yrs st,
    Flowline.stage_yrs = Ok yrs
    /\ Flowline.stage_run evolve length_m_of area_km2_of volume_km3_of
         spinup_fls = Ok st
    /\ length (Flowline.st_ela st) = length yrs
    /\ (forall (i : nat) (y : Z),
          yrs !! i = Some y ->
          Flowline.st_ela st !! i =
            Some (if decide (500 <= y) then 3200%Q
                  else if decide (100 <= y) then 2800%Q else 3000%Q))
    /\ (forall (i : nat) (y y' : Z),
          yrs !! i = Some y ->
          yrs !! S i = Some y' ->
          exists e,
            Flowline.st_ela st !! i = Some e
            /\ Flowline.history (Flowline.st_model st) !! i =
                 Some (Flowline.mkAdvance y y' (Flowline.mkLinearMassBalance e 4)))
    /\ (yrs !! 20%nat = Some 100
        /\ Flowline.st_ela st !! 20%nat = Some 2800%Q
        /\ Flowline.history (Flowline.st_model st) !! 19%nat =
             Some (Flowline.mkAdvance 95 100 (Flowline.mkLinearMassBalance 3000 4)))
    /\ (yrs !! 100%nat = Some 500
        /\ Flowline.st_ela st !! 100%nat = Some 3200%Q
        /\ Flowline.history (Flowline.st_model st) !! 99%nat =
             Some (Flowline.mkAdvance 495 500 (Flowline.mkLinearMassBalance 2800 4))).
Proof.
  destruct (stage_run_trace evolve length_m_of area_km2_of volume_km3_of spinup_fls)
    as (st & Hrun & Hela & Hhist).
  exists stage_years, st. split; [apply stage_yrs_ok|]. split; [done|].
  split; [by rewrite Hela, length_fmap|].
  assert (forall (i : nat) (y : Z), stage_years !! i = Some y ->
            Flowline.st_ela st !! i = Some (stage_ela y)) as Hlook.
  { intros i y Hi. by rewrite Hela, list_lookup_fmap, Hi. }
  assert (forall (i : nat) (y y' : Z),
            stage_years !! i = Some y -> stage_years !! S i = Some y' ->
            Flowline.history (Flowline.st_model st) !! i =
              Some (Flowline.mkAdvance y y'
                      (Flowline.mkLinearMassBalance (stage_ela y) 4))) as Hadv.
  { intros i y y' Hi HSi.
    by rewrite Hhist, lookup_zip_with, lookup_tail, Hi, HSi. }
  split; [exact Hlook|]. split.
  { intros i y y' Hi HSi. exists (stage_ela y). split; [by apply Hlook|].
    by apply Hadv. }
  split.
  - split; [apply stage_years_lookup; lia|].
    split; [apply (Hlook 20%nat 100), stage_years_lookup; lia|].
    apply (Hadv 19%nat 95 100); apply stage_years_lookup; lia.
  - split; [apply stage_years_lookup; lia|].
    split; [apply (Hlook 100%nat 500), stage_years_lookup; lia|].
    apply (Hadv 99%nat 495 500); apply stage_years_lookup; lia.
Qed.

(** ** Marking the surging periods *)

Lemma surge_plot_trace :
  exists yrs,
    Surging.yrs 100 10 10 = Ok yrs
    /\ length yrs = 211%nat
    /\ SurgePlot.window_tests 10 yrs =
         imap (fun i _ => Ok (bool_decide (Z.of_nat i ∈ window_starts))) yrs
    /\ (fun i => yrs !! Z.to_nat i) <$> window_starts =
         (fun c => Some (101 + 110 * c)) <$> seqZ 0 10
    /\ SurgePlot.mark_surging_periods 10 yrs =
         Ok ((fun c => (100 + 110 * c, 110 + 110 * c)) <$> seqZ 0 10)
    /\ drop 202 (imap (fun i yr => SurgePlot.dense_step yrs (Z.of_nat i) yr) yrs)
         = replicate 9 (Ok false).
Proof.
  eexists. split; [vm_compute; reflexivity|].
  split; [vm_compute; reflexivity|].
  split; [vm_compute; reflexivity|].
  split; [vm_compute; reflexivity|].
  split; vm_compute; reflexivity.
Qed.

(** C9: on the schedule of the notebook (ten surges) the test of the
    plotting loop never raises [IndexError]; it holds exactly at the ten
    indices 11, 31, ..., 191, each the first densely sampled year
    101 + 110 c of a surge window, so [axvspan] is called once per window;
    and at the last [period_s - 1] indices, where the right operand would
    read past the end, the left operand is already false. *)
Theorem C9_surge_window_detection :
  exists yrs,
    Surging.yrs 100 10 10 = Ok yrs
    /\ (forall (i : nat) (yr : Z),
          yrs !! i = Some yr ->
          SurgePlot.surge_window_test 10 yrs (Z.of_nat i) yr =
            Ok (bool_decide (Z.of_nat i ∈ window_starts)))
    /\ (forall (i : nat) (yr : Z),
          yrs !! i = Some yr ->
          len yrs <= Z.of_nat i - 1 + 10 ->
          SurgePlot.dense_step yrs (Z.of_nat i) yr = Ok false)
    /\ length window_starts = 10%nat
    /\ NoDup window_starts
    /\ (forall c : Z,
          0 <= c < 10 -> yrs !! Z.to_nat (11 + 20 * c) = Some (101 + 110 * c))
    /\ SurgePlot.mark_surging_periods 10 yrs =
         Ok ((fun c => (100 + 110 * c, 110 + 110 * c)) <$> seqZ 0 10).
Proof.
  destruct surge_plot_trace as (yrs & Hyrs & Hlen & Htests & Hstarts & Hmark & Hend).
  exists yrs. split; [done|]. split; [|split; [|split; [|split; [|split]]]].
  - intros i yr Hi.
    apply (f_equal (fun l => l !! i)) in Htests.
    unfold SurgePlot.window_tests in Htests.
    rewrite !list_lookup_imap, Hi in Htests. by injection Htests.
  - intros i yr Hi Hnear. unfold len in Hnear.
    pose proof (lookup_lt_Some _ _ _ Hi) as Hlt.
    apply (f_equal (fun l => l !! (i - 202)%nat)) in Hend.
    rewrite lookup_drop, list_lookup_imap in Hend.
    replace (202 + (i - 202))%nat with i in Hend by lia.
    rewrite Hi, lookup_replicate_2 in Hend by lia.
    by injection Hend.
  - done.
  - unfold window_starts. apply NoDup_fmap_2; [|apply NoDup_seqZ].
    intros a b; lia.
  - intros c Hc.
    apply (f_equal (fun l => l !! Z.to_nat c)) in Hstarts.
    unfold window_starts in Hstarts.
    rewrite !list_lookup_fmap, lookup_seqZ_lt in Hstarts by lia.
    cbn [fmap option_fmap option_map] in Hstarts.
    rewrite Z.add_0_l, Z2Nat.id in Hstarts by lia.
    by injection Hstarts.
  - done.
Qed.

(** ** The linear bed *)

Lemma inject_Z_nonzero (d : Z) : d ≠ 0 -> ~ (inject_Z d == 0)%Q.
Proof. intros Hd H. unfold Qeq in H. simpl in H. lia. Qed.

Lemma inject_Z_pos (d : Z) : 0 < d -> (0 < inject_Z d)%Q.
Proof. intros Hd. unfold Qlt. simpl. lia. Qed.

(** With at least two samples, sample [i] is [start] plus [i] steps of
    [(stop - start) / (num - 1)], and the last one is [stop] itself. *)
Lemma linspace_interpolates (start stop : Q) (num : Z) :
  2 <= num ->
  exists l,
    Geometry.linspace start stop num = Ok l
    /\ length l = Z.to_nat num
    /\ (forall i : nat,
          (i < Z.to_nat num)%nat ->
          exists v, l !! i = Some v
            /\ (v == start + inject_Z (Z.of_nat i)
                             * ((stop - start) / inject_Z (num - 1)))%Q)
    /\ l !! Z.to_nat (num - 1) = Some stop.
Proof.
  intros Hn. unfold Geometry.linspace.
  rewrite decide_False, (decide_True (P := 0 < num - 1)),
    (decide_True (P := 1 < num)) by lia.
  pose proof (inject_Z_nonzero (num - 1) ltac:(lia)) as Hd.
  set (step := ((stop - start) / inject_Z (num - 1))%Q).
  eexists. split; [reflexivity|].
  assert (forall f : Q -> Q,
            length (<[Z.to_nat (num - 1) := stop]>
              ((fun v => v + start)%Q <$> (f <$> (inject_Z <$> seqZ 0 num))))
            = Z.to_nat num) as Hlen.
  { intros f. by rewrite length_insert, !length_fmap, length_seqZ. }
  assert (forall f : Q -> Q,
            (forall v, f v == v * step)%Q ->
            forall i : nat, (i < Z.to_nat num)%nat ->
            exists v,
              <[Z.to_nat (num - 1) := stop]>
                ((fun v => v + start)%Q <$> (f <$> (inject_Z <$> seqZ 0 num))) !! i
              = Some v
              /\ (v == start + inject_Z (Z.of_nat i) * step)%Q) as Hlook.
  { intros f Hf i Hi.
    destruct (decide (i = Z.to_nat (num - 1))) as [->|Hne].
    - exists stop. split.
      + apply list_lookup_insert_eq.
        rewrite !length_fmap, length_seqZ. lia.
      + rewrite Z2Nat.id by lia. unfold step. field. exact Hd.
    - eexists. split.
      + rewrite list_lookup_insert_ne by done.
        rewrite !list_lookup_fmap, lookup_seqZ_lt by lia. reflexivity.
      + rewrite Hf, Z.add_0_l. ring. }
  destruct (Qeq_bool step 0) eqn:Hz.
  - split; [apply Hlen|]. split.
    + apply Hlook. intros v. unfold step. field. exact Hd.
    + apply list_lookup_insert_eq. rewrite !length_fmap, length_seqZ. lia.
  - split; [apply Hlen|]. split.
    + apply Hlook. intros v. reflexivity.
    + apply list_lookup_insert_eq. rewrite !length_fmap, length_seqZ. lia.
Qed.

Lemma linspace_single (start stop : Q) :
  Geometry.linspace start stop 1 = Ok [(0 * (stop - start) + start)%Q].
Proof. reflexivity. Qed.

Lemma step_negative (top bottom : Q) (d : Z) :
  0 < d -> (bottom < top)%Q -> ((bottom - top) / inject_Z d < 0)%Q.
Proof.
  intros Hd Hlt. apply Qlt_shift_div_r; [by apply inject_Z_pos|]. lra.
Qed.

Lemma getitem_first {A} (l : list A) (v : A) :
  l !! 0%nat = Some v -> getitem l 0 = Ok v.
Proof.
  intros H. unfold getitem.
  rewrite (decide_False (P := 0 < 0)), (decide_True (P := 0 <= 0)) by lia.
  change (Z.to_nat 0) with 0%nat. by rewrite H.
Qed.

Lemma getitem_last {A} (l : list A) (v : A) :
  l !! (length l - 1)%nat = Some v -> getitem l (-1) = Ok v.
Proof.
  intros H. pose proof (lookup_lt_Some _ _ _ H) as Hlt.
  unfold getitem, len.
  rewrite (decide_True (P := -1 < 0)) by lia.
  rewrite (decide_True (P := 0 <= -1 + Z.of_nat (length l))) by lia.
  replace (Z.to_nat (-1 + Z.of_nat (length l))) with (length l - 1)%nat by lia.
  by rewrite H.
Qed.

(** C4, as the code has it: with at least two grid points and the top above
    the bottom, the bed has [nx] elevations, linearly interpolated and
    non-increasing, the first equal to the top altitude and the last equal
    to the bottom altitude; with a single grid point the bed is the top
    altitude alone. *)
Theorem C4_linear_bed (top bottom : Q) (nx : Z) :
  2 <= nx ->
  (bottom < top)%Q ->
  (exists bed,
     Geometry.bed_h top bottom nx = Ok bed
     /\ len bed = nx
     /\ (forall i : nat,
           Z.of_nat i < nx ->
           exists v, bed !! i = Some v
             /\ (v == top + inject_Z (Z.of_nat i)
                            * ((bottom - top) / inject_Z (nx - 1)))%Q)
     /\ (forall (i : nat) (a b : Q),
           bed !! i = Some a -> bed !! S i = Some b -> (b <= a)%Q)
     /\ (exists v, Geometry.first bed = Ok v /\ (v == top)%Q)
     /\ Geometry.final bed = Ok bottom)
  /\ (exists v, Geometry.bed_h top bottom 1 = Ok [v] /\ (v == top)%Q).
Proof.
  intros Hn Hlt. split.
  - destruct (linspace_interpolates top bottom nx Hn)
      as (bed & Hbed & Hlen & Hlin & Hlast).
    exists bed. split; [done|]. split; [unfold len; lia|].
    split; [intros i Hi; apply Hlin; lia|].
    split; [|split].
    + intros i a b Ha Hb.
      pose proof (lookup_lt_Some _ _ _ Hb) as Hi.
      destruct (Hlin i ltac:(lia)) as (a' & Ha' & Hav).
      destruct (Hlin (S i) ltac:(lia)) as (b' & Hb' & Hbv).
      rewrite Ha in Ha'. rewrite Hb in Hb'.
      injection Ha' as <-. injection Hb' as <-.
      pose proof (step_negative top bottom (nx - 1) ltac:(lia) Hlt) as Hs.
      rewrite Hav, Hbv, Nat2Z.inj_succ. unfold Z.succ.
      rewrite inject_Z_plus. change (inject_Z 1) with 1%Q.
      generalize dependent ((bottom - top) / inject_Z (nx - 1))%Q.
      intros s _ _ _ Hs. generalize (inject_Z (Z.of_nat i)). intros k.
      ring_simplify. lra.
    + destruct (Hlin 0%nat ltac:(lia)) as (v & Hv & Hvv).
      exists v. split; [by apply getitem_first|].
      rewrite Hvv. change (inject_Z (Z.of_nat 0)) with 0%Q. ring.
    + apply getitem_last. rewrite Hlen.
      replace (Z.to_nat nx - 1)%nat with (Z.to_nat (nx - 1)) by lia. done.
  - eexists. split; [apply linspace_single|]. ring.
Qed.

Lemma C4_linear_bed_witness :
  2 <= 200 /\ (1400 < 3400)%Q /\
  exists bed,
    Geometry.bed_h 3400 1400 200 = Ok bed
    /\ len bed = 200
    /\ (exists v, Geometry.first bed = Ok v /\ (v == 3400)%Q)
    /\ Geometry.final bed = Ok 1400%Q.
Proof.
  assert (2 <= 200) as Hn by lia.
  assert (1400 < 3400)%Q as Hlt by reflexivity.
  split; [exact Hn|]. split; [exact Hlt|].
  destruct (C4_linear_bed 3400 1400 200 Hn Hlt)
    as [(bed & Hbed & Hlen & _ & _ & Hfirst & Hlast) _].
  exists bed. split; [exact Hbed|]. split; [exact Hlen|].
  split; [exact Hfirst|exact Hlast].
Defined.

(** C4 as stated fails with a single grid point: the bed is then the top
    altitude alone, so its last element is not the bottom altitude. *)
Lemma C4_single_point_counterexample :
  exists bed v,
    Geometry.bed_h 3400 1400 1 = Ok bed
    /\ len bed = 1
    /\ Geometry.final bed = Ok v
    /\ (v == 3400)%Q
    /\ ~ (v == 1400)%Q.
Proof.
  eexists _, _. split; [reflexivity|]. split; [reflexivity|].
  split; [reflexivity|]. split; [reflexivity|]. discriminate.
Qed.

(** ** The width profile *)

Lemma fmap_const_replicate {A B} (f : A -> B) (c : B) (l : list A) :
  (forall x, x ∈ l -> f x = c) -> f <$> l = replicate (length l) c.
Proof.
  induction l as [|x l IH]; intros Hf; csimpl; [done|].
  rewrite Hf by left. f_equal. apply IH. intros y Hy. apply Hf. by right.
Qed.

Lemma accumulation_count_bounds (grid_count : Z) (accumulation_fraction : Q) :
  0 < grid_count ->
  (0 <= accumulation_fraction)%Q -> (accumulation_fraction <= 1)%Q ->
  0 <= Qfloor (accumulation_fraction * inject_Z grid_count) <= grid_count.
Proof.
  intros Hn H0 H1. pose proof (inject_Z_pos grid_count Hn) as Hpos.
  split.
  - change 0 with (Qfloor 0). apply Qfloor_resp_le. nra.
  - rewrite <- (Qfloor_Z grid_count) at 2. apply Qfloor_resp_le. nra.
Qed.

(** C5: for a positive grid count and a fraction in [0, 1] the width
    profile is [top_width] on the first [floor(fraction * grid_count)]
    indices and [ela_width] on all the others, a step with nothing in
    between; the widened profile of the flowline notebook (first 15 of 200
    points) is the instance with fraction 3/40. *)
Theorem C5_trapezoidal_width (top_width ela_width : Q) (grid_count : Z)
    (accumulation_fraction : Q) :
  0 < grid_count ->
  (0 <= accumulation_fraction)%Q ->
  (accumulation_fraction <= 1)%Q ->
  (exists widths,
     Geometry.build_trapezoidal_width top_width ela_width grid_count
       accumulation_fraction = Ok widths
     /\ len widths = grid_count
     /\ 0 <= Qfloor (accumulation_fraction * inject_Z grid_count) <= grid_count
     /\ widths =
          replicate (Z.to_nat (Qfloor (accumulation_fraction * inject_Z grid_count)))
            top_width
          ++ replicate
               (Z.to_nat (grid_count
                          - Qfloor (accumulation_fraction * inject_Z grid_count)))
               ela_width)
  /\ (exists widths,
        Geometry.widths 200 300 100 = Ok widths
        /\ Geometry.build_trapezoidal_width (600 / 100) (0 + 300 / 100) 200 (3 # 40)
           = Ok (Geometry.wider_widths widths 600 100)).
Proof.
  intros Hn H0 H1. split.
  - pose proof (accumulation_count_bounds _ _ Hn H0 H1) as Hk.
    unfold Geometry.build_trapezoidal_width.
    rewrite decide_False by lia.
    destruct (Qlt_le_dec accumulation_fraction 0) as [?|_]; [lra|].
    destruct (Qlt_le_dec 1 accumulation_fraction) as [?|_]; [lra|].
    set (k := Qfloor (accumulation_fraction * inject_Z grid_count)) in *.
    eexists. split; [reflexivity|].
    split; [unfold len; rewrite length_fmap, length_seqZ; lia|].
    split; [done|].
    replace grid_count with (k + (grid_count - k)) at 1 by lia.
    rewrite seqZ_app, fmap_app by lia. f_equal.
    + rewrite (fmap_const_replicate _ top_width), length_seqZ; [done|].
      intros i Hi%elem_of_seqZ. by rewrite decide_True by lia.
    + rewrite (fmap_const_replicate _ ela_width), length_seqZ; [done|].
      intros i Hi%elem_of_seqZ. by rewrite decide_False by lia.
  - eexists. split; vm_compute; reflexivity.
Qed.

Lemma C5_trapezoidal_width_witness :
  0 < 200 /\ (0 <= 1 # 3)%Q /\ (1 # 3 <= 1)%Q /\
  exists widths,
    Geometry.build_trapezoidal_width 1000 500 200 (1 # 3) = Ok widths
    /\ len widths = 200
    /\ widths = replicate 66 1000%Q ++ replicate 134 500%Q.
Proof.
  assert (0 < 200) as Hn by lia.
  assert (0 <= 1 # 3)%Q as H0 by discriminate.
  assert (1 # 3 <= 1)%Q as H1 by discriminate.
  split; [exact Hn|]. split; [exact H0|]. split; [exact H1|].
  destruct (C5_trapezoidal_width 1000 500 200 (1 # 3) Hn H0 H1)
    as [(widths & Hw & Hlen & _ & Heq) _].
  exists widths. split; [exact Hw|]. split; [exact Hlen|]. exact Heq.
Defined.

(** ** The no-flow equilibrium surface stays on or above the bed *)

Lemma correct_to_bed_above (bed surface : Q) :
  (bed <= Equilibrium.correct_to_bed bed surface)%Q.
Proof.
  unfold Equilibrium.correct_to_bed.
  destruct (Qlt_le_dec (surface - bed) 0); lra.
Qed.

(** C7: whenever the surface and the bed have the same number of grid
    points, [reconstruct] returns a profile of that length and at every
    index the profile is at or above the bed. *)
Theorem C7_profile_above_bed (initial_surface bedrock : list Q) (ela gradient : Q) :
  length initial_surface = length bedrock ->
  exists profile,
    Equilibrium.reconstruct initial_surface bedrock ela gradient = Ok profile
    /\ length profile = length bedrock
    /\ (forall (i : nat) (b : Q),
          bedrock !! i = Some b ->
          exists p, profile !! i = Some p /\ (b <= p)%Q).
Proof.
  intros Hlen. unfold Equilibrium.reconstruct. rewrite decide_True by done.
  eexists. split; [reflexivity|].
  split; [by rewrite length_zip_with_r_eq|].
  intros i b Hb.
  destruct (lookup_lt_is_Some_2 initial_surface i) as [s Hs].
  { rewrite Hlen. by eapply lookup_lt_Some. }
  eexists. split.
  - rewrite lookup_zip_with, Hs, Hb. reflexivity.
  - apply correct_to_bed_above.
Qed.

Lemma C7_profile_above_bed_witness :
  length [3000%Q; 2500%Q; 2000%Q] = length [2900%Q; 2450%Q; 2000%Q]
  /\ exists profile,
       Equilibrium.reconstruct [3000; 2500; 2000]%Q [2900; 2450; 2000]%Q
         2600 (7 # 1000) = Ok profile
       /\ length profile = 3%nat
       /\ (forall (i : nat) (b : Q),
             [2900%Q; 2450%Q; 2000%Q] !! i = Some b ->
             exists p, profile !! i = Some p /\ (b <= p)%Q).
Proof.
  split; [reflexivity|].
  exact (C7_profile_above_bed [3000; 2500; 2000]%Q [2900; 2450; 2000]%Q
           2600 (7 # 1000) eq_refl).
Defined.

(** ** No validation of the parameters *)



(** While the parameters have at most 30 bits, every value of the loop
    body fits in 64 bits, for every surge number the loop reaches. *)
Lemma cycle_values_fit (t_slow period_s no_surges i : Z) :
  Int64.small t_slow -> Int64.small period_s -> Int64.small no_surges ->
  0 <= i < no_surges ->
  Forall Int64.fits (Int64.cycle_values t_slow period_s i).
Proof.
  unfold Int64.small, Int64.fits, Int64.cycle_values.
  intros Ht Hp Hn Hi.
  assert (- 2 ^ 60 <= t_slow * i <= 2 ^ 60) by nia.
  assert (- 2 ^ 60 <= period_s * i <= 2 ^ 60) by nia.
  repeat (apply Forall_cons; split; [lia|]). constructor.
Qed.




(** * Further properties of the notebooks' code *)

(** ** The surge schedule for any [t_slow] and [period_s] *)

Lemma gen_cycle_shape (t_slow period_s : Z) (sched : list (Z * bool)) (c : Z) :
  Surging.surge_cycle_tagged t_slow period_s sched c =
  Ok (sched ++ Surging.tagged true (gen_surge t_slow period_s c)
            ++ Surging.tagged false (gen_quiet t_slow period_s c)).
Proof.
  unfold Surging.surge_cycle_tagged.
  rewrite arange_unit, bind_Ok, arange_ok, bind_Ok by done.
  unfold append, gen_surge, gen_quiet. rewrite <- (assoc_L (++)).
  replace (t_slow + period_s + 1 + t_slow * c + period_s * c
           - (t_slow + 1 + t_slow * c + period_s * c)) with period_s by lia.
  replace (2 * t_slow + period_s + 10 + t_slow * c + period_s * c
           - (t_slow + period_s + 10 + t_slow * c + period_s * c))
    with t_slow by lia.
  done.
Qed.

Lemma gen_schedule_cycles (t_slow period_s : Z) (n : nat)
    (sched : list (Z * bool)) :
  for_each (Surging.surge_cycle_tagged t_slow period_s)
    (seqZ 0 (Z.of_nat n)) sched
  = Ok (sched ++ gen_cycles t_slow period_s n).
Proof.
  induction n as [|n IH].
  - simpl. by rewrite (right_id_L [] (++)).
  - rewrite seqZ_S, for_each_app, IH, bind_Ok. cbn [for_each].
    rewrite gen_cycle_shape, bind_Ok, Z.add_0_l.
    cbn [gen_cycles]. by rewrite <- (assoc_L (++)).
Qed.

Lemma gen_schedule_shape (t_slow period_s N : Z) :
  Surging.schedule t_slow period_s N =
  Ok (Surging.tagged false (gen_spinup t_slow)
      ++ gen_cycles t_slow period_s (Z.to_nat N)).
Proof.
  unfold Surging.schedule.
  rewrite (arange_ok 0 (t_slow + 1) 10), bind_Ok by done.
  rewrite arange_unit, bind_Ok, Z.sub_0_r.
  replace (seqZ 0 N) with (seqZ 0 (Z.of_nat (Z.to_nat N))).
  - rewrite gen_schedule_cycles. reflexivity.
  - destruct (decide (0 <= N)) as [?|?]; [by rewrite Z2Nat.id|].
    rewrite !seqZ_nil; [done|lia..].
Qed.

Lemma gen_yrs_shape (t_slow period_s N : Z) :
  Surging.yrs t_slow period_s N =
  Ok (gen_spinup t_slow ++ (gen_cycles t_slow period_s (Z.to_nat N)).*1).
Proof.
  by rewrite yrs_erase, gen_schedule_shape, fmap_Ok, fmap_app, fst_tagged.
Qed.

Lemma gen_cycles_years (t_slow period_s : Z) (n : nat) :
  (gen_cycles t_slow period_s (S n)).*1 =
  (gen_cycles t_slow period_s n).*1
    ++ gen_surge t_slow period_s (Z.of_nat n)
    ++ gen_quiet t_slow period_s (Z.of_nat n).
Proof. cbn [gen_cycles]. by rewrite !fmap_app, !fst_tagged. Qed.

Lemma cdiv_between (a q : Z) : 10 * (q - 1) < a <= 10 * q -> cdiv a 10 = q.
Proof.
  intros Ha. unfold cdiv.
  rewrite <- (Z.div_unique (- a) 10 (- q) (10 * q - a)); lia.
Qed.

Lemma elem_of_tagged (b b' : bool) (y : Z) (ys : list Z) :
  (y, b) ∈ Surging.tagged b' ys <-> b = b' /\ y ∈ ys.
Proof.
  unfold Surging.tagged. rewrite list_elem_of_fmap. split.
  - intros (y' & [= -> ->] & Hy). done.
  - intros [-> Hy]. by exists y.
Qed.

Lemma gen_cycles_surge_tags (t_slow period_s : Z) (n : nat) (y : Z) :
  (y, true) ∈ gen_cycles t_slow period_s n <->
  exists c, 0 <= c < Z.of_nat n
    /\ t_slow + 1 + (t_slow + period_s) * c <= y
         < t_slow + period_s + 1 + (t_slow + period_s) * c.
Proof.
  induction n as [|n IH].
  - cbn [gen_cycles]. split; [by intros ?%elem_of_nil|]. intros (c & ? & _). lia.
  - cbn [gen_cycles]. rewrite !elem_of_app, IH, !elem_of_tagged.
    unfold gen_surge. rewrite elem_of_seqZ. split.
    + intros [(c & Hc & Hy)|[[_ Hy]|[? _]]]; [| |done].
      * exists c. lia.
      * exists (Z.of_nat n). lia.
    + intros (c & Hc & Hy).
      destruct (decide (c = Z.of_nat n)) as [->|Hne].
      * right. left. split; [done|lia].
      * left. exists c. lia.
Qed.

(** X1: for [t_slow], [period_s] and a number of surges of at most 30
    bits (so that the cell stays within 64-bit integers), positive or not,
    a year of the schedule is tagged as a surge year exactly when it lies
    in one of the windows of [period_s] years that start one year after
    [t_slow + c * (t_slow + period_s)], for a surge number [c] below the
    count. *)
Theorem X1_surge_years_are_the_windows (t_slow period_s no_surges : Z) :
  Int64.small t_slow -> Int64.small period_s -> Int64.small no_surges ->
  exists sched,
    Surging.schedule t_slow period_s no_surges = Ok sched
    /\ forall y : Z,
         (y, true) ∈ sched <->
         exists c, 0 <= c < no_surges
           /\ t_slow + 1 + (t_slow + period_s) * c <= y
                < t_slow + period_s + 1 + (t_slow + period_s) * c.
Proof.
  intros _ _ _.
  eexists. split; [apply gen_schedule_shape|]. intros y.
  rewrite elem_of_app, elem_of_tagged, gen_cycles_surge_tags. split.
  - intros [[? _]|(c & Hc & Hy)]; [done|]. exists c. lia.
  - intros (c & Hc & Hy). right. exists c. lia.
Qed.

Lemma X1_surge_years_are_the_windows_witness :
  Int64.small 7 /\ Int64.small 3 /\ Int64.small 2
  /\ exists sched,
       Surging.schedule 7 3 2 = Ok sched
       /\ forall y : Z,
            (y, true) ∈ sched <->
            exists c, 0 <= c < 2
              /\ 7 + 1 + (7 + 3) * c <= y < 7 + 3 + 1 + (7 + 3) * c.
Proof.
  assert (Int64.small 7) as H7 by (unfold Int64.small; lia).
  assert (Int64.small 3) as H3 by (unfold Int64.small; lia).
  assert (Int64.small 2) as H2 by (unfold Int64.small; lia).
  split; [exact H7|]. split; [exact H3|]. split; [exact H2|].
  exact (X1_surge_years_are_the_windows 7 3 2 H7 H3 H2).
Defined.

Lemma gen_spinup_bounds (k y : Z) :
  0 <= k -> y ∈ gen_spinup (10 * k) -> 0 <= y <= 10 * k.
Proof.
  intros Hk. unfold gen_spinup.
  rewrite (cdiv_between _ (k + 1)) by lia.
  intros [j [-> Hj]]%list_elem_of_fmap_1. apply elem_of_seqZ in Hj. lia.
Qed.

Lemma gen_surge_bounds (t_slow period_s c y : Z) :
  y ∈ gen_surge t_slow period_s c ->
  t_slow + 1 + (t_slow + period_s) * c <= y
    <= t_slow + period_s + (t_slow + period_s) * c.
Proof. unfold gen_surge. rewrite elem_of_seqZ. lia. Qed.

Lemma gen_quiet_bounds (k period_s c y : Z) :
  y ∈ gen_quiet (10 * k) period_s c ->
  10 * k + period_s + 10 + (10 * k + period_s) * c <= y
    <= 10 * k + (10 * k + period_s) * (c + 1).
Proof.
  unfold gen_quiet. rewrite cdiv_exact by done.
  intros [j [-> Hj]]%list_elem_of_fmap_1. apply elem_of_seqZ in Hj. lia.
Qed.

Lemma gen_schedule_sorted (k period_s : Z) (n : nat) :
  0 <= k -> 0 <= period_s ->
  StronglySorted Z.lt
    (gen_spinup (10 * k) ++ (gen_cycles (10 * k) period_s n).*1)
  /\ Forall (fun y => 0 <= y <= 10 * k + (10 * k + period_s) * Z.of_nat n)
       (gen_spinup (10 * k) ++ (gen_cycles (10 * k) period_s n).*1).
Proof.
  intros Hk Hp. induction n as [|n [IHs IHb]].
  - cbn [gen_cycles]. rewrite fmap_nil, (right_id_L [] (++)). split.
    + apply sorted_fmap_seqZ. intros; lia.
    + apply Forall_forall. intros y Hy%gen_spinup_bounds; lia.
  - rewrite gen_cycles_years, (assoc_L (++)). rewrite Forall_forall in IHb.
    split.
    + apply StronglySorted_app_2; [|done|].
      * intros x1 x2 Hx1%IHb
          [Hx2%gen_surge_bounds|Hx2%gen_quiet_bounds]%elem_of_app; nia.
      * apply StronglySorted_app_2.
        -- intros x1 x2 Hx1%gen_surge_bounds Hx2%gen_quiet_bounds. nia.
        -- unfold gen_surge. rewrite <- (list_fmap_id (seqZ _ _)).
           apply sorted_fmap_seqZ. by intros.
        -- apply sorted_fmap_seqZ. intros; lia.
    + apply Forall_forall.
      intros y [Hy%IHb|[Hy%gen_surge_bounds|Hy%gen_quiet_bounds]%elem_of_app]%elem_of_app;
        nia.
Qed.

(** X2: when [t_slow] is a multiple of ten and neither it nor [period_s]
    is negative, the cell yields strictly increasing years, so no year is
    listed twice, for every number of surges. *)
Theorem X2_schedule_increasing_for_multiples_of_ten (k period_s no_surges : Z) :
  0 <= k ->
  0 <= period_s ->
  exists yrs,
    Surging.yrs (10 * k) period_s no_surges = Ok yrs
    /\ StronglySorted Z.lt yrs
    /\ NoDup yrs.
Proof.
  intros Hk Hp. eexists. split; [apply gen_yrs_shape|].
  destruct (gen_schedule_sorted k period_s (Z.to_nat no_surges) Hk Hp) as [Hs _].
  split; [done|]. by apply sorted_lt_NoDup.
Qed.

Lemma X2_schedule_increasing_for_multiples_of_ten_witness :
  0 <= 3 /\ 0 <= 4 /\
  exists yrs,
    Surging.yrs (10 * 3) 4 2 = Ok yrs
    /\ StronglySorted Z.lt yrs
    /\ NoDup yrs.
Proof.
  split; [lia|]. split; [lia|].
  apply (X2_schedule_increasing_for_multiples_of_ten 3 4 2); lia.
Defined.




(** ** Size and span of the schedule *)

Lemma gen_years_length (k period_s : Z) (n : nat) :
  0 <= k -> 0 <= period_s ->
  len (gen_spinup (10 * k) ++ (gen_cycles (10 * k) period_s n).*1)
  = k + 1 + Z.of_nat n * (period_s + k).
Proof.
  intros Hk Hp. unfold len. induction n as [|n IH].
  - cbn [gen_cycles]. rewrite fmap_nil, (right_id_L [] (++)).
    unfold gen_spinup. rewrite (cdiv_between _ (k + 1)) by lia.
    rewrite length_fmap, length_seqZ. lia.
  - rewrite gen_cycles_years, (assoc_L (++)), length_app, Nat2Z.inj_add, IH.
    unfold gen_surge, gen_quiet. rewrite cdiv_exact by done.
    rewrite length_app, length_fmap, !length_seqZ. lia.
Qed.

Lemma last_fmap_seqZ (f : Z -> Z) (n : Z) :
  1 <= n -> last (f <$> seqZ 0 n) = Some (f (n - 1)).
Proof.
  intros Hn. replace n with ((n - 1) + 1) at 1 by lia.
  rewrite seqZ_app, fmap_app by lia.
  rewrite (seqZ_cons (0 + (n - 1)) 1), (seqZ_nil _ (Z.pred 1)) by lia. csimpl.
  by rewrite last_snoc, Z.add_0_l.
Qed.

Lemma last_seqZ (a n : Z) : 1 <= n -> last (seqZ a n) = Some (a + n - 1).
Proof.
  intros Hn. replace n with ((n - 1) + 1) at 1 by lia.
  rewrite seqZ_app by lia.
  rewrite (seqZ_cons (a + (n - 1)) 1), (seqZ_nil _ (Z.pred 1)) by lia.
  rewrite last_snoc. f_equal. lia.
Qed.

Lemma gen_years_last (k period_s : Z) (n : nat) :
  0 <= k -> 0 <= period_s ->
  last (gen_spinup (10 * k) ++ (gen_cycles (10 * k) period_s n).*1)
  = Some (10 * k + (10 * k + period_s) * Z.of_nat n).
Proof.
  intros Hk Hp. induction n as [|n IH].
  - cbn [gen_cycles]. rewrite fmap_nil, (right_id_L [] (++)).
    unfold gen_spinup. rewrite (cdiv_between _ (k + 1)) by lia.
    rewrite last_fmap_seqZ by lia. f_equal. lia.
  - rewrite gen_cycles_years, !(assoc_L (++)).
    destruct (decide (1 <= k)) as [Hk1|Hk0].
    + rewrite last_app. unfold gen_quiet at 1. rewrite cdiv_exact by done.
      rewrite last_fmap_seqZ by lia. f_equal. lia.
    + assert (k = 0) as -> by lia.
      unfold gen_quiet. rewrite cdiv_exact by done.
      rewrite seqZ_nil by lia. rewrite fmap_nil, (right_id_L [] (++)).
      destruct (decide (1 <= period_s)) as [Hp1|Hp0].
      * rewrite last_app. unfold gen_surge.
        rewrite last_seqZ by lia. f_equal. lia.
      * assert (period_s = 0) as -> by lia.
        unfold gen_surge. rewrite seqZ_nil by lia.
        rewrite (right_id_L [] (++)), IH. f_equal; lia.
Qed.

Lemma getitem_last_Some {A} (l : list A) (v : A) :
  last l = Some v -> getitem l (-1) = Ok v.
Proof.
  rewrite last_lookup. intros H. apply getitem_last.
  by replace (length l - 1)%nat with (pred (length l)) by lia.
Qed.

(** X4: for a [t_slow] of [10 k] years, surges of [period_s] years and [N]
    surges the schedule has [k + 1 + N (period_s + k)] checkpoints, starts
    at year 0 and ends at year [t_slow + N (t_slow + period_s)]; every
    checkpoint lies between the two (they are [min(yrs)] and [max(yrs)] of
    the time axis). *)
Theorem X4_schedule_size_and_span (k period_s no_surges : Z) :
  0 <= k ->
  0 <= period_s ->
  0 <= no_surges ->
  exists yrs,
    Surging.yrs (10 * k) period_s no_surges = Ok yrs
    /\ len yrs = k + 1 + no_surges * (period_s + k)
    /\ getitem yrs 0 = Ok 0
    /\ getitem yrs (-1) = Ok (10 * k + no_surges * (10 * k + period_s))
    /\ Forall (fun y => 0 <= y <= 10 * k + no_surges * (10 * k + period_s)) yrs.
Proof.
  intros Hk Hp HN. eexists. split; [apply gen_yrs_shape|].
  split; [rewrite gen_years_length by done; lia|].
  split; [|split].
  - apply getitem_first. unfold gen_spinup.
    rewrite (cdiv_between _ (k + 1)), seqZ_cons by lia. reflexivity.
  - apply getitem_last_Some. rewrite gen_years_last by done. f_equal. lia.
  - destruct (gen_schedule_sorted k period_s (Z.to_nat no_surges) Hk Hp)
      as [_ Hb].
    eapply Forall_impl; [exact Hb|]. intros y Hy; simpl in *. lia.
Qed.

Lemma X4_schedule_size_and_span_witness :
  0 <= 10 /\ 0 <= 10 /\ 0 <= 10 /\
  exists yrs,
    Surging.yrs (10 * 10) 10 10 = Ok yrs
    /\ len yrs = 211
    /\ getitem yrs 0 = Ok 0
    /\ getitem yrs (-1) = Ok 1200
    /\ Forall (fun y => 0 <= y <= 1200) yrs.
Proof.
  split; [lia|]. split; [lia|]. split; [lia|].
  apply (X4_schedule_size_and_span 10 10 10); lia.
Defined.

(** ** The test of the plotting loop, for any number of surges *)

Lemma notebook_years_length (n : nat) :
  length (spinup_years ++ (cycles n).*1) = (11 + 20 * n)%nat.
Proof.
  induction n as [|n IH]; [reflexivity|].
  rewrite cycles_years, (assoc_L (++)), length_app, IH.
  unfold surge_years, quiet_years.
  rewrite length_app, length_fmap, !length_seqZ. lia.
Qed.

Lemma notebook_years_spinup (n j : nat) :
  (j <= 10)%nat ->
  (spinup_years ++ (cycles n).*1) !! j = Some (10 * Z.of_nat j).
Proof.
  intros Hj. rewrite lookup_app_l by (change (length spinup_years) with 11%nat; lia).
  unfold spinup_years. rewrite list_lookup_fmap, lookup_seqZ_lt by lia.
  simpl. f_equal. lia.
Qed.

Lemma notebook_years_surge (n c r : nat) :
  (c < n)%nat -> (r < 10)%nat ->
  (spinup_years ++ (cycles n).*1) !! (11 + 20 * c + r)%nat
  = Some (101 + 110 * Z.of_nat c + Z.of_nat r).
Proof.
  intros Hc Hr. induction n as [|n IH]; [lia|].
  rewrite cycles_years, (assoc_L (++)).
  destruct (decide (c = n)) as [->|Hne].
  - rewrite lookup_app_r by (rewrite notebook_years_length; lia).
    rewrite notebook_years_length.
    rewrite lookup_app_l by (unfold surge_years; rewrite length_seqZ; lia).
    replace (11 + 20 * n + r - (11 + 20 * n))%nat with r by lia.
    unfold surge_years. rewrite lookup_seqZ_lt by lia. f_equal.
  - rewrite lookup_app_l by (rewrite notebook_years_length; lia).
    apply IH. lia.
Qed.

Lemma notebook_years_quiet (n c r : nat) :
  (c < n)%nat -> (r < 10)%nat ->
  (spinup_years ++ (cycles n).*1) !! (21 + 20 * c + r)%nat
  = Some (120 + 110 * Z.of_nat c + 10 * Z.of_nat r).
Proof.
  intros Hc Hr. induction n as [|n IH]; [lia|].
  rewrite cycles_years, (assoc_L (++)).
  destruct (decide (c = n)) as [->|Hne].
  - rewrite lookup_app_r by (rewrite notebook_years_length; lia).
    rewrite notebook_years_length.
    rewrite lookup_app_r by (unfold surge_years; rewrite length_seqZ; lia).
    unfold surge_years at 1. rewrite length_seqZ.
    replace (21 + 20 * n + r - (11 + 20 * n) - Z.to_nat 10)%nat with r by lia.
    unfold quiet_years. rewrite list_lookup_fmap, lookup_seqZ_lt by lia.
    simpl. f_equal. lia.
  - rewrite lookup_app_l by (rewrite notebook_years_length; lia).
    apply IH. lia.
Qed.

Lemma notebook_index_cases (n i : nat) :
  (i < 11 + 20 * n)%nat ->
  (i <= 10)%nat
  \/ (exists c r, (c < n)%nat /\ (r < 10)%nat /\ i = (11 + 20 * c + r)%nat)
  \/ (exists c r, (c < n)%nat /\ (r < 10)%nat /\ i = (21 + 20 * c + r)%nat).
Proof.
  intros Hi. destruct (decide (i <= 10)%nat) as [?|Hgt]; [by left|right].
  pose proof (Nat.div_mod_eq (i - 11) 20) as Hdm.
  pose proof (Nat.mod_upper_bound (i - 11) 20 ltac:(lia)) as Hm.
  destruct (decide ((i - 11) mod 20 < 10)%nat) as [Hlo|Hhi].
  - left. exists ((i - 11) / 20)%nat, ((i - 11) mod 20)%nat. lia.
  - right. exists ((i - 11) / 20)%nat, ((i - 11) mod 20 - 10)%nat. lia.
Qed.

Lemma getitem_nat {A} (l : list A) (i : Z) (j : nat) (v : A) :
  i = Z.of_nat j -> l !! j = Some v -> getitem l i = Ok v.
Proof.
  intros -> H. unfold getitem.
  destruct (decide (Z.of_nat j < 0)) as [?|_]; [lia|].
  destruct (decide (0 <= Z.of_nat j)) as [_|?]; [|lia].
  by rewrite Nat2Z.id, H.
Qed.

Lemma window_test_no_step (period_s : Z) (l : list Z) (i yr prev : Z) :
  getitem l (i - 1) = Ok prev -> yr - prev ≠ 1 ->
  SurgePlot.surge_window_test period_s l i yr = Ok false.
Proof.
  intros Hprev Hne. unfold SurgePlot.surge_window_test.
  rewrite Hprev, bind_Ok. by rewrite decide_False.
Qed.

Lemma window_test_step (period_s : Z) (l : list Z) (i yr prev a b : Z) :
  getitem l (i - 1) = Ok prev -> yr - prev = 1 ->
  getitem l (i - 1 + period_s) = Ok a ->
  getitem l (i + period_s - 2) = Ok b ->
  SurgePlot.surge_window_test period_s l i yr = Ok (bool_decide (a - b = 1)).
Proof.
  intros Hprev Heq Ha Hb. unfold SurgePlot.surge_window_test.
  rewrite Hprev, bind_Ok, decide_True by done.
  by rewrite Ha, bind_Ok, Hb, bind_Ok.
Qed.

Lemma notebook_years_final (n : nat) :
  getitem (spinup_years ++ (cycles n).*1) (-1) = Ok (100 + 110 * Z.of_nat n).
Proof.
  apply getitem_last. rewrite notebook_years_length.
  destruct n as [|n].
  - replace (11 + 20 * 0 - 1)%nat with 10%nat by lia.
    by rewrite notebook_years_spinup by lia.
  - replace (11 + 20 * S n - 1)%nat with (21 + 20 * n + 9)%nat by lia.
    rewrite notebook_years_quiet by lia. f_equal. lia.
Qed.

Lemma window_test_hit (period_s : Z) (l : list Z) (i yr prev a b : Z) :
  getitem l (i - 1) = Ok prev -> yr - prev = 1 ->
  getitem l (i - 1 + period_s) = Ok a ->
  getitem l (i + period_s - 2) = Ok b ->
  a - b = 1 ->
  SurgePlot.surge_window_test period_s l i yr = Ok true.
Proof.
  intros Hprev Heq Ha Hb Hab.
  rewrite (window_test_step _ _ _ _ _ _ _ Hprev Heq Ha Hb).
  by rewrite bool_decide_eq_true_2.
Qed.

Lemma window_test_miss (period_s : Z) (l : list Z) (i yr prev a b : Z) :
  getitem l (i - 1) = Ok prev -> yr - prev = 1 ->
  getitem l (i - 1 + period_s) = Ok a ->
  getitem l (i + period_s - 2) = Ok b ->
  a - b ≠ 1 ->
  SurgePlot.surge_window_test period_s l i yr = Ok false.
Proof.
  intros Hprev Heq Ha Hb Hab.
  rewrite (window_test_step _ _ _ _ _ _ _ Hprev Heq Ha Hb).
  by rewrite bool_decide_eq_false_2.
Qed.

Ltac year_spinup j :=
  apply (getitem_nat _ _ j); [lia|apply (notebook_years_spinup _ j); lia].
Ltac year_surge c r :=
  apply (getitem_nat _ _ (11 + 20 * c + r)%nat);
  [lia|apply (notebook_years_surge _ c r); lia].
Ltac year_quiet c r :=
  apply (getitem_nat _ _ (21 + 20 * c + r)%nat);
  [lia|apply (notebook_years_quiet _ c r); lia].

Ltac not_a_window_start :=
  rewrite bool_decide_eq_false_2;
  [|let c := fresh "c" in
    let H := fresh "H" in
    intros (c & H & ?%elem_of_seqZ)%list_elem_of_fmap; lia].

Lemma notebook_window_test (n i : nat) (yr : Z) :
  (spinup_years ++ (cycles n).*1) !! i = Some yr ->
  SurgePlot.surge_window_test 10 (spinup_years ++ (cycles n).*1) (Z.of_nat i) yr
  = Ok (bool_decide
          (Z.of_nat i ∈ (fun c => 11 + 20 * c) <$> seqZ 0 (Z.of_nat n))).
Proof.
  intros Hi. pose proof (lookup_lt_Some _ _ _ Hi) as Hlt.
  rewrite notebook_years_length in Hlt.
  destruct (notebook_index_cases n i Hlt)
    as [Hs|[(c & r & Hc & Hr & ->)|(c & r & Hc & Hr & ->)]].
  - rewrite notebook_years_spinup in Hi by done. injection Hi as <-.
    not_a_window_start.
    destruct i as [|i].
    + eapply window_test_no_step; [apply notebook_years_final|lia].
    + eapply window_test_no_step; [year_spinup i|lia].
  - rewrite notebook_years_surge in Hi by done. injection Hi as <-.
    destruct r as [|[|r]].
    + rewrite bool_decide_eq_true_2.
      2:{ apply list_elem_of_fmap. exists (Z.of_nat c).
          split; [lia|apply elem_of_seqZ; lia]. }
      destruct c as [|c].
      * eapply window_test_hit;
          [year_spinup 10%nat|lia|year_surge 0%nat 9%nat
          |year_surge 0%nat 8%nat|lia].
      * eapply window_test_hit;
          [year_quiet c 9%nat|lia|year_surge (S c) 9%nat
          |year_surge (S c) 8%nat|lia].
    + not_a_window_start.
      eapply window_test_miss;
        [year_surge c 0%nat|lia|year_quiet c 0%nat|year_surge c 9%nat|lia].
    + not_a_window_start.
      eapply window_test_miss;
        [year_surge c (S r)|lia|year_quiet c (S r)|year_quiet c r|lia].
  - rewrite notebook_years_quiet in Hi by done. injection Hi as <-.
    not_a_window_start.
    destruct r as [|r].
    + eapply window_test_no_step; [year_surge c 9%nat|lia].
    + eapply window_test_no_step; [year_quiet c r|lia].
Qed.

(** X5: for every number of surges (with the notebook's [t_slow = 100] and
    [period_s = 10]) the test of the plotting loop returns at every index of
    [yrs] without an [IndexError], and it holds exactly at the indices
    [11 + 20 c] of the first year of each surge [c]. *)
Theorem X5_window_test_any_surge_count (no_surges : Z) :
  exists yrs,
    Surging.yrs 100 10 no_surges = Ok yrs
    /\ forall (i : nat) (yr : Z),
         yrs !! i = Some yr ->
         SurgePlot.surge_window_test 10 yrs (Z.of_nat i) yr
         = Ok (bool_decide
                 (Z.of_nat i ∈ (fun c => 11 + 20 * c) <$> seqZ 0 no_surges)).
Proof.
  eexists. split; [apply yrs_shape|]. intros i yr Hi.
  rewrite (notebook_window_test _ _ _ Hi).
  replace (seqZ 0 (Z.of_nat (Z.to_nat no_surges))) with (seqZ 0 no_surges);
    [done|].
  destruct (decide (0 <= no_surges)) as [?|?]; [by rewrite Z2Nat.id|].
  rewrite !seqZ_nil; [done|lia..].
Qed.

(** ** The recording loop on an arbitrary list of years *)

Section RecordAny.
Context {geometry : Type}.
Variable evolve :
  Flowline.LinearMassBalance -> Z -> Z -> geometry -> result geometry.
Variables length_m_of volume_km3_of : geometry -> Q.

Local Abbreviation run_until := (Unstable.run_until evolve).
Local Abbreviation states_after := (Unstable.states_after evolve).
Local Abbreviation length_m := (Flowline.length_m length_m_of).
Local Abbreviation volume_km3 := (Flowline.volume_km3 volume_km3_of).
Local Abbreviation record_step :=
  (Unstable.record_step evolve length_m_of volume_km3_of).
Local Abbreviation record_run :=
  (Unstable.record_run evolve length_m_of volume_km3_of).

(** A call either moves the clock forward to the requested year or leaves
    it, or it raises what the stepping raised on the advance to that
    year. *)
Lemma unstable_run_until_cases (y : Z)
    (m : Flowline.flowline_model (geometry := geometry)) :
  match run_until y m with
  | Ok m' => Flowline.yr m' = Z.max (Flowline.yr m) y
  | Raise e =>
      Flowline.yr m < y
      /\ exists mb g, evolve mb (Flowline.yr m) y g = Raise e
  end.
Proof.
  unfold Unstable.run_until.
  destruct (decide (Flowline.yr m < y)) as [Hlt|Hge]; [|lia].
  destruct (evolve _ _ _ _) as [g|e] eqn:E.
  - rewrite bind_Ok. simpl. lia.
  - split; [done|]. eauto.
Qed.

Lemma unstable_run_until_behind (y : Z)
    (m : Flowline.flowline_model (geometry := geometry)) :
  y <= Flowline.yr m -> run_until y m = Ok m.
Proof. intros Hy. unfold Unstable.run_until. by rewrite decide_False by lia. Qed.

Lemma unstable_states_cons (y : Z) (yrs : list Z)
    (m : Flowline.flowline_model (geometry := geometry)) :
  match states_after (y :: yrs) m with
  | Ok sts =>
      exists m' l, run_until y m = Ok m' /\ states_after yrs m' = Ok l
                   /\ sts = m' :: l
  | Raise e =>
      run_until y m = Raise e
      \/ exists m', run_until y m = Ok m' /\ states_after yrs m' = Raise e
  end.
Proof.
  cbn [Unstable.states_after].
  destruct (run_until y m) as [m'|e]; [|by left].
  rewrite bind_Ok.
  destruct (states_after yrs m') as [l|e] eqn:E.
  - rewrite bind_Ok. by exists m', l.
  - right. by exists m'.
Qed.

Lemma unstable_states_length (yrs : list Z)
    (m : Flowline.flowline_model (geometry := geometry))
    (sts : list Flowline.flowline_model) :
  states_after yrs m = Ok sts -> length sts = length yrs.
Proof.
  revert m sts. induction yrs as [|y yrs IH]; intros m sts Hs.
  - by injection Hs as <-.
  - pose proof (unstable_states_cons y yrs m) as Hc. rewrite Hs in Hc.
    destruct Hc as (m' & l & _ & Hl & ->). simpl. f_equal. by apply (IH m').
Qed.

Lemma unstable_states_clock (yrs : list Z)
    (m s : Flowline.flowline_model (geometry := geometry))
    (sts : list Flowline.flowline_model) (i : nat) :
  states_after yrs m = Ok sts ->
  sts !! i = Some s ->
  Flowline.yr m <= Flowline.yr s
  /\ forall (j : nat) (y : Z),
       (j <= i)%nat -> yrs !! j = Some y -> y <= Flowline.yr s.
Proof.
  revert m sts i. induction yrs as [|y0 yrs IH]; intros m sts i Hsts Hs.
  - injection Hsts as <-. done.
  - pose proof (unstable_states_cons y0 yrs m) as Hc. rewrite Hsts in Hc.
    destruct Hc as (m' & l & Hm' & Hl & ->).
    pose proof (unstable_run_until_cases y0 m) as Hyr. rewrite Hm' in Hyr.
    destruct i as [|i].
    + injection Hs as <-. split; [lia|].
      intros [|j] y Hj Hy; [|lia]. injection Hy as <-. lia.
    + destruct (IH _ _ _ Hl Hs) as [Hge Hall]. split; [lia|].
      intros [|j] y Hj Hy.
      * injection Hy as <-. lia.
      * apply (Hall j); [lia|done].
Qed.

Lemma unstable_states_next (yrs : list Z)
    (m s : Flowline.flowline_model (geometry := geometry))
    (sts : list Flowline.flowline_model) (i : nat) (y : Z) :
  states_after yrs m = Ok sts ->
  sts !! i = Some s ->
  yrs !! S i = Some y ->
  exists s', run_until y s = Ok s' /\ sts !! S i = Some s'.
Proof.
  revert m sts i. induction yrs as [|y0 yrs IH]; intros m sts i Hsts Hs Hy;
    [done|].
  pose proof (unstable_states_cons y0 yrs m) as Hc. rewrite Hsts in Hc.
  destruct Hc as (m' & l & Hm' & Hl & ->).
  destruct i as [|i].
  - injection Hs as <-. destruct yrs as [|y1 yrs]; [done|].
    injection Hy as ->.
    pose proof (unstable_states_cons y yrs m') as Hc. rewrite Hl in Hc.
    destruct Hc as (s' & l' & Hs' & _ & ->). by exists s'.
  - apply (IH m' l i); done.
Qed.

(** An exception of the run is the one the stepping raised on an advance
    towards a year of the list. *)
Lemma unstable_states_raise (yrs : list Z)
    (m : Flowline.flowline_model (geometry := geometry)) (e : exn) :
  states_after yrs m = Raise e ->
  exists mb a b g,
    Flowline.yr m <= a < b /\ b ∈ yrs /\ evolve mb a b g = Raise e.
Proof.
  revert m. induction yrs as [|y yrs IH]; intros m Hs; [done|].
  pose proof (unstable_states_cons y yrs m) as Hc. rewrite Hs in Hc.
  pose proof (unstable_run_until_cases y m) as Hyr.
  destruct Hc as [Hm|(m' & Hm' & Hl)].
  - rewrite Hm in Hyr. destruct Hyr as (Hlt & mb & g & Hev).
    exists mb, (Flowline.yr m), y, g. split; [lia|]. split; [left|done].
  - rewrite Hm' in Hyr.
    destruct (IH m' Hl) as (mb & a & b & g & Hab & Hb & Hev).
    exists mb, a, b, g. split; [lia|]. split; [by right|done].
Qed.

Lemma last_cons_default {A} (x y : A) (l : list A) :
  default x (last (y :: l)) = default y (last l).
Proof.
  destruct l as [|z l]; [done|].
  change (last (y :: z :: l)) with (last (z :: l)).
  destruct (last (z :: l)) eqn:EL; [done|by apply last_None in EL].
Qed.

Lemma unstable_record_step_next
    (m : Flowline.flowline_model (geometry := geometry))
    (pre_l pre_v rest_l rest_v : list Q) (x_l x_v : Q) (y : Z) :
  length pre_l = length pre_v ->
  record_step (m, pre_l ++ x_l :: rest_l, pre_v ++ x_v :: rest_v) (len pre_l) y
  = (m' ← run_until y m;
     Ok (m', pre_l ++ length_m m' :: rest_l, pre_v ++ volume_km3 m' :: rest_v)).
Proof.
  intros Hlen. unfold Unstable.record_step.
  destruct (run_until y m) as [m'|e]; [|done].
  rewrite !bind_Ok, setitem_next, bind_Ok.
  replace (len pre_l) with (len pre_v) by (unfold len; lia).
  by rewrite setitem_next, bind_Ok.
Qed.

Lemma unstable_record_loop (yrs : list Z)
    (m : Flowline.flowline_model (geometry := geometry))
    (pre_l pre_v : list Q) :
  length pre_l = length pre_v ->
  for_enumerate record_step (len pre_l) yrs
    (m, pre_l ++ replicate (length yrs) 0%Q, pre_v ++ replicate (length yrs) 0%Q)
  = (sts ← states_after yrs m;
     Ok (default m (last sts),
         pre_l ++ (length_m <$> sts), pre_v ++ (volume_km3 <$> sts))).
Proof.
  revert m pre_l pre_v.
  induction yrs as [|y yrs IH]; intros m pre_l pre_v Hlen; [done|].
  cbn [for_enumerate length replicate Unstable.states_after].
  rewrite unstable_record_step_next by done.
  destruct (run_until y m) as [m'|e]; [|done].
  rewrite !bind_Ok.
  rewrite (cons_middle _ pre_l), (cons_middle _ pre_v), !(assoc_L (++)).
  rewrite <- (len_app_singleton pre_l (length_m m')).
  rewrite IH by (rewrite !length_app; simpl; lia).
  destruct (states_after yrs m') as [l|e]; [|done].
  rewrite !bind_Ok, last_cons_default.
  by rewrite !fmap_cons, <- !(assoc_L (++)).
Qed.

Lemma unstable_record_run_states (yrs : list Z)
    (m : Flowline.flowline_model (geometry := geometry)) :
  record_run yrs m =
  (sts ← states_after yrs m;
   Ok (default m (last sts), length_m <$> sts, volume_km3 <$> sts)).
Proof.
  unfold Unstable.record_run. rewrite zeros_len, !bind_Ok.
  apply (unstable_record_loop yrs m [] []). done.
Qed.

End RecordAny.

(** When the stepping never fails, the loop is the one of the flowline
    notebook as modelled in [Flowline]. *)
Lemma unstable_run_until_stable {geometry : Type}
    (evolve : Flowline.LinearMassBalance -> Z -> Z -> geometry -> geometry)
    (y : Z) (m : Flowline.flowline_model) :
  Unstable.run_until (fun mb a b g => Ok (evolve mb a b g)) y m
  = Ok (Flowline.run_until evolve y m).
Proof.
  unfold Unstable.run_until, Flowline.run_until.
  by destruct (decide (Flowline.yr m < y)).
Qed.

Lemma unstable_states_stable {geometry : Type}
    (evolve : Flowline.LinearMassBalance -> Z -> Z -> geometry -> geometry)
    (yrs : list Z) (m : Flowline.flowline_model) :
  Unstable.states_after (fun mb a b g => Ok (evolve mb a b g)) yrs m
  = Ok (Flowline.states_after evolve yrs m).
Proof.
  revert m. induction yrs as [|y yrs IH]; intros m; [done|].
  cbn [Unstable.states_after Flowline.states_after].
  by rewrite unstable_run_until_stable, bind_Ok, IH, bind_Ok.
Qed.

Lemma foldl_run_until_last {geometry : Type}
    (evolve : Flowline.LinearMassBalance -> Z -> Z -> geometry -> geometry)
    (yrs : list Z) (m : Flowline.flowline_model) :
  foldl (fun m y => Flowline.run_until evolve y m) m yrs
  = default m (last (Flowline.states_after evolve yrs m)).
Proof.
  revert m. induction yrs as [|y yrs IH]; intros m; [done|].
  cbn [foldl Flowline.states_after]. by rewrite IH, last_cons_default.
Qed.

Lemma unstable_record_run_stable {geometry : Type}
    (evolve : Flowline.LinearMassBalance -> Z -> Z -> geometry -> geometry)
    (length_m_of volume_km3_of : geometry -> Q)
    (yrs : list Z) (m : Flowline.flowline_model) :
  Unstable.record_run (fun mb a b g => Ok (evolve mb a b g))
    length_m_of volume_km3_of yrs m
  = Flowline.record_run evolve length_m_of volume_km3_of yrs m.
Proof.
  rewrite unstable_record_run_states, unstable_states_stable, bind_Ok.
  by rewrite record_run_states, foldl_run_until_last.
Qed.

(** X6: on any list of years, increasing or not, the recording loop raises
    nothing of its own.  Either it ends with one length and one volume per
    year, the model at a year that is not before its starting year nor
    before any year of the list, and every year that is not after an
    earlier year of the list with the same length and volume as the entry
    before it; or it raises what the stepping of the model raised on an
    advance towards a year of the list.  It ends when the stepping never
    fails. *)
Theorem X6_record_any_schedule {geometry : Type}
    (evolve :
       Flowline.LinearMassBalance -> Z -> Z -> geometry -> result geometry)
    (length_m_of volume_km3_of : geometry -> Q)
    (yrs : list Z) (m : Flowline.flowline_model) :
  match Unstable.record_run evolve length_m_of volume_km3_of yrs m with
  | Ok (final, length, vol) =>
      len length = len yrs
      /\ len vol = len yrs
      /\ Flowline.yr m <= Flowline.yr final
      /\ Forall (fun y => y <= Flowline.yr final) yrs
      /\ forall (i j : nat) (y y' : Z),
           yrs !! S i = Some y ->
           (j <= i)%nat -> yrs !! j = Some y' -> y <= y' ->
           length !! S i = length !! i /\ vol !! S i = vol !! i
  | Raise e =>
      exists mb a b g,
        Flowline.yr m <= a < b /\ b ∈ yrs /\ evolve mb a b g = Raise e
  end
  /\ ((forall mb a b g, is_ok (evolve mb a b g) = true) ->
      is_ok (Unstable.record_run evolve length_m_of volume_km3_of yrs m)
      = true).
Proof.
  rewrite unstable_record_run_states.
  destruct (Unstable.states_after evolve yrs m) as [sts|e] eqn:Hsts.
  - rewrite bind_Ok. split; [|done].
    pose proof (unstable_states_length evolve _ _ _ Hsts) as Hlen.
    unfold len. rewrite !length_fmap, Hlen.
    split; [done|]. split; [done|]. split; [|split].
    + destruct (last sts) as [s|] eqn:E; [|simpl; lia].
      rewrite last_lookup in E.
      by apply (unstable_states_clock evolve _ _ _ _ _ Hsts) in E as [? _].
    + apply Forall_forall. intros y [j Hj]%list_elem_of_lookup.
      pose proof (lookup_lt_Some _ _ _ Hj) as Hlt.
      destruct (last sts) as [s|] eqn:E.
      * rewrite last_lookup, Hlen in E.
        apply (unstable_states_clock evolve _ _ _ _ _ Hsts) in E as [_ Hall].
        apply (Hall j); [lia|done].
      * apply last_None in E. subst sts. simpl in Hlen. lia.
    + intros i j y y' Hy Hj Hy' Hle.
      pose proof (lookup_lt_Some _ _ _ Hy) as Hlt.
      destruct (lookup_lt_is_Some_2 sts i) as [s Hs]; [lia|].
      destruct (unstable_states_next evolve _ _ _ _ _ _ Hsts Hs Hy)
        as (s' & Hrun & HS).
      destruct (unstable_states_clock evolve _ _ _ _ _ Hsts Hs) as [_ Hall].
      rewrite unstable_run_until_behind in Hrun
        by (specialize (Hall j y' Hj Hy'); lia).
      injection Hrun as <-.
      by rewrite !list_lookup_fmap, Hs, HS.
  - split.
    + by apply unstable_states_raise.
    + intros Hok.
      destruct (unstable_states_raise evolve _ _ _ Hsts)
        as (mb & a & b & g & _ & _ & Hev).
      specialize (Hok mb a b g). by rewrite Hev in Hok.
Qed.

(** ** The distance axis *)

Lemma ratio_above_one (nx : Z) :
  2 <= nx -> (1 < inject_Z nx / inject_Z (nx - 1))%Q.
Proof.
  intros Hn. apply Qlt_shift_div_l; [apply inject_Z_pos; lia|].
  rewrite Qmult_1_l. rewrite <- Zlt_Qlt. lia.
Qed.

(** X7: with at least two grid points the distance axis has [nx] points
    from 0 to [nx / 10] km, point [i] at [i * nx / (nx - 1) / 10] km, so
    that two neighbours are [nx / (nx - 1) / 10] km apart, more than the
    0.1 km of the grid spacing. *)
Theorem X7_distance_axis_spacing (nx : Z) :
  2 <= nx ->
  exists d,
    Grid.distance_along_glacier nx = Ok d
    /\ len d = nx
    /\ (forall i : nat,
          Z.of_nat i < nx ->
          exists v, d !! i = Some v
            /\ (v == inject_Z (Z.of_nat i)
                     * (inject_Z nx / inject_Z (nx - 1)) * (1 # 10))%Q)
    /\ Geometry.final d = Ok (inject_Z nx * (1 # 10))%Q
    /\ (forall (i : nat) (a b : Q),
          d !! i = Some a -> d !! S i = Some b ->
          (b - a == inject_Z nx / inject_Z (nx - 1) * (1 # 10))%Q
          /\ (1 # 10 < b - a)%Q).
Proof.
  intros Hn. unfold Grid.distance_along_glacier.
  destruct (linspace_interpolates 0 (inject_Z nx) nx Hn)
    as (l & -> & Hlen & Hlin & Hlast).
  rewrite bind_Ok. eexists. split; [reflexivity|].
  assert (forall i : nat,
            Z.of_nat i < nx ->
            exists v, (fun v => v * (1 # 10))%Q <$> l !! i = Some v
              /\ (v == inject_Z (Z.of_nat i)
                       * (inject_Z nx / inject_Z (nx - 1)) * (1 # 10))%Q) as Hpt.
  { intros i Hi. destruct (Hlin i ltac:(lia)) as (v & Hv & Hvv).
    exists (v * (1 # 10))%Q. split; [by rewrite Hv|].
    rewrite Hvv. field. apply inject_Z_nonzero. lia. }
  split; [unfold len; rewrite length_fmap; lia|].
  split; [intros i Hi; rewrite list_lookup_fmap; apply Hpt, Hi|].
  split.
  - apply getitem_last. rewrite length_fmap, list_lookup_fmap, Hlen.
    replace (Z.to_nat nx - 1)%nat with (Z.to_nat (nx - 1)) by lia.
    by rewrite Hlast.
  - intros i a b Ha Hb.
    pose proof (lookup_lt_Some _ _ _ Hb) as Hi. rewrite length_fmap in Hi.
    rewrite list_lookup_fmap in Ha, Hb.
    destruct (Hpt i ltac:(lia)) as (a' & Ha' & Hav).
    destruct (Hpt (S i) ltac:(lia)) as (b' & Hb' & Hbv).
    rewrite Ha in Ha'. rewrite Hb in Hb'.
    injection Ha' as <-. injection Hb' as <-.
    pose proof (ratio_above_one nx Hn) as Hq.
    assert (b - a == inject_Z nx / inject_Z (nx - 1) * (1 # 10))%Q as Hd.
    { rewrite Hav, Hbv, Nat2Z.inj_succ. unfold Z.succ.
      rewrite inject_Z_plus. change (inject_Z 1) with 1%Q. ring. }
    split; [exact Hd|]. rewrite Hd. lra.
Qed.

Lemma X7_distance_axis_spacing_witness :
  2 <= 200 /\
  exists d,
    Grid.distance_along_glacier 200 = Ok d
    /\ len d = 200
    /\ Geometry.final d = Ok (inject_Z 200 * (1 # 10))%Q.
Proof.
  assert (2 <= 200) as Hn by lia. split; [exact Hn|].
  destruct (X7_distance_axis_spacing 200 Hn) as (d & Hd & Hlen & _ & Hlast & _).
  exists d. split; [exact Hd|]. split; [exact Hlen|exact Hlast].
Defined.

(** ** The bed stays between its two altitudes *)

(** X8: for at least one grid point and a bottom altitude not above the
    top altitude, every elevation of the bed lies between the two. *)
Theorem X8_bed_between_altitudes (top bottom : Q) (nx : Z) :
  1 <= nx ->
  (bottom <= top)%Q ->
  exists bed,
    Geometry.bed_h top bottom nx = Ok bed
    /\ len bed = nx
    /\ forall (i : nat) (v : Q),
         bed !! i = Some v -> (bottom <= v)%Q /\ (v <= top)%Q.
Proof.
  intros Hn Hle. destruct (decide (nx = 1)) as [->|Hne].
  - eexists. split; [apply linspace_single|]. split; [done|].
    intros [|i] v Hv; [|done]. injection Hv as <-. split; lra.
  - destruct (linspace_interpolates top bottom nx ltac:(lia))
      as (bed & Hbed & Hlen & Hlin & _).
    exists bed. split; [done|]. split; [unfold len; lia|].
    intros i v Hv. pose proof (lookup_lt_Some _ _ _ Hv) as Hi.
    destruct (Hlin i ltac:(lia)) as (v' & Hv' & Hvv).
    rewrite Hv in Hv'. injection Hv' as <-.
    assert (0 <= inject_Z (Z.of_nat i))%Q as Hk0 by (rewrite <- (Zle_Qle 0); lia).
    assert (inject_Z (Z.of_nat i) <= inject_Z (nx - 1))%Q as Hk1
      by (rewrite <- Zle_Qle; lia).
    pose proof (inject_Z_pos (nx - 1) ltac:(lia)) as Hd.
    assert ((bottom - top) / inject_Z (nx - 1) * inject_Z (nx - 1)
            == bottom - top)%Q as Hs.
    { field. apply inject_Z_nonzero. lia. }
    rewrite Hvv.
    generalize dependent ((bottom - top) / inject_Z (nx - 1))%Q.
    intros s _ Hs.
    generalize dependent (inject_Z (Z.of_nat i)).
    generalize dependent (inject_Z (nx - 1)).
    intros d Hd Hs k Hk0 Hk1. split; nra.
Qed.

Lemma X8_bed_between_altitudes_witness :
  1 <= 200 /\ (1400 <= 3400)%Q /\
  exists bed,
    Geometry.bed_h 3400 1400 200 = Ok bed
    /\ len bed = 200
    /\ forall (i : nat) (v : Q),
         bed !! i = Some v -> (1400 <= v)%Q /\ (v <= 3400)%Q.
Proof.
  assert (1 <= 200) as Hn by lia.
  assert (1400 <= 3400)%Q as Hle by discriminate.
  split; [exact Hn|]. split; [exact Hle|].
  exact (X8_bed_between_altitudes 3400 1400 200 Hn Hle).
Defined.

(** ** Widening the top of the glacier *)

Lemma slice_bound_zero {A} (a : list A) : Geometry.slice_bound a 0 = 0.
Proof. unfold Geometry.slice_bound, len. rewrite decide_False by lia. lia. Qed.

(** X9: for a [map_dx] that is not zero (Python's division raises
    otherwise) and on any width array, the widening cell keeps the length,
    sets the entries at indices below 15 that exist to the new width, and
    leaves all others as they were; an array shorter than 15 is
    overwritten whole, without an error. *)
Theorem X9_wider_widths_any_array (widths : list Q) (new_width map_dx : Q) (i : nat) :
  ~ (map_dx == 0)%Q ->
  length (Geometry.wider_widths widths new_width map_dx) = length widths
  /\ Geometry.wider_widths widths new_width map_dx !! i =
       if decide (i < 15)%nat
       then (fun _ => (new_width / map_dx)%Q) <$> widths !! i
       else widths !! i.
Proof.
  intros _.
  unfold Geometry.wider_widths, Geometry.setslice.
  split; [apply length_imap|].
  rewrite list_lookup_imap, slice_bound_zero.
  destruct (widths !! i) as [w|] eqn:Hw; [|by destruct (decide (i < 15)%nat)].
  pose proof (lookup_lt_Some _ _ _ Hw) as Hlt. cbn [fmap option_fmap option_map].
  unfold Geometry.slice_bound, len. rewrite (decide_False (P := 15 < 0)) by lia.
  destruct (decide (i < 15)%nat).
  - by rewrite decide_True by lia.
  - by rewrite decide_False by lia.
Qed.

Lemma X9_wider_widths_any_array_witness :
  ~ (100 == 0)%Q
  /\ length (Geometry.wider_widths [3%Q; 3%Q; 3%Q] 600 100) = 3%nat
  /\ Geometry.wider_widths [3%Q; 3%Q; 3%Q] 600 100 !! 1%nat =
       if decide (1 < 15)%nat
       then (fun _ => (600 / 100)%Q) <$> [3%Q; 3%Q; 3%Q] !! 1%nat
       else [3%Q; 3%Q; 3%Q] !! 1%nat.
Proof.
  assert (~ (100 == 0)%Q) as Hdx by (intros H; vm_compute in H; discriminate H).
  split; [exact Hdx|].
  exact (X9_wider_widths_any_array [3%Q; 3%Q; 3%Q] 600 100 1 Hdx).
Defined.

(** ** Masks and index arrays *)

Lemma first_true (mask : list bool) (k : nat) :
  mask !! k = Some true ->
  exists k0, (k0 <= k)%nat /\ mask !! k0 = Some true
    /\ forall j, (j < k0)%nat -> mask !! j = Some false.
Proof.
  revert k. induction mask as [|b mask IH]; intros k Hk; [done|].
  destruct b.
  - exists 0%nat. split; [lia|]. split; [done|]. intros j Hj; lia.
  - destruct k as [|k]; [done|]. destruct (IH k Hk) as (k0 & Hle & Hk0 & Hlow).
    exists (S k0). split; [lia|]. split; [done|].
    intros [|j] Hj; [done|]. apply Hlow. lia.
Qed.

Lemma where_from_first (mask : list bool) (i0 : Z) (k : nat) :
  mask !! k = Some true ->
  (forall j, (j < k)%nat -> mask !! j = Some false) ->
  exists rest, Np.where_from i0 mask = (i0 + Z.of_nat k) :: rest.
Proof.
  revert i0 k. induction mask as [|b mask IH]; intros i0 k Hk Hlow; [done|].
  destruct k as [|k].
  - injection Hk as ->. eexists. cbn [Np.where_from]. f_equal. lia.
  - pose proof (Hlow 0%nat ltac:(lia)) as H0. injection H0 as ->.
    cbn [Np.where_from].
    destruct (IH (i0 + 1) k Hk) as (rest & ->).
    { intros j Hj. apply (Hlow (S j)). lia. }
    exists rest. f_equal. lia.
Qed.

Lemma where_from_none (mask : list bool) (i0 : Z) :
  (forall j, mask !! j ≠ Some true) -> Np.where_from i0 mask = [].
Proof.
  revert i0. induction mask as [|b mask IH]; intros i0 Hno; [done|].
  destruct b; [by specialize (Hno 0%nat)|].
  cbn [Np.where_from]. apply IH. intros j. apply (Hno (S j)).
Qed.

Lemma where_from_range (mask : list bool) (i0 : Z) :
  Forall (fun i => i0 <= i < i0 + len mask) (Np.where_from i0 mask).
Proof.
  revert i0. induction mask as [|b mask IH]; intros i0; [constructor|].
  cbn [Np.where_from]. specialize (IH (i0 + 1)).
  assert (Forall (fun i => i0 <= i < i0 + len (b :: mask))
            (Np.where_from (i0 + 1) mask)) as Hrest.
  { eapply Forall_impl; [exact IH|]. unfold len. intros i Hi; simpl in *. lia. }
  destruct b; [|done]. constructor; [|done]. unfold len. simpl. lia.
Qed.

Lemma take_in_range {A} (a : list A) (idx : list Z) :
  Forall (fun i => 0 <= i < len a) idx ->
  exists xs, Np.take_ a idx = Ok xs
    /\ xs !! 0%nat = (idx !! 0%nat) ≫= (fun i => a !! Z.to_nat i).
Proof.
  induction 1 as [|i idx Hi _ (xs & Hxs & _)]; [by exists []|].
  destruct (lookup_lt_is_Some_2 a (Z.to_nat i)) as [x Hx]; [unfold len in Hi; lia|].
  exists (x :: xs). cbn [Np.take_].
  rewrite (getitem_nat a i (Z.to_nat i) x) by (done || lia).
  rewrite bind_Ok, Hxs, bind_Ok. split; [done|]. simpl. by rewrite Hx.
Qed.

(** Reading the first element selected by a mask: the element at the first
    index where the mask holds. *)
Lemma select_first {A} (a : list A) (mask : list bool) (k : nat) (x : A) :
  (length mask <= length a)%nat ->
  mask !! k = Some true ->
  (forall j, (j < k)%nat -> mask !! j = Some false) ->
  a !! k = Some x ->
  (Np.take_ a (Np.where_ mask) ≫= fun sel => getitem sel 0) = Ok x.
Proof.
  intros Hlen Hk Hlow Hx. unfold Np.where_.
  destruct (take_in_range a (Np.where_from 0 mask)) as (xs & Hxs & Hhead).
  { eapply Forall_impl; [apply where_from_range|].
    unfold len. intros i Hi; simpl in *. lia. }
  destruct (where_from_first mask 0 k Hk Hlow) as (rest & Hw).
  rewrite Hxs, bind_Ok. apply getitem_first.
  rewrite Hhead, Hw. simpl. by rewrite Z.add_0_l, Nat2Z.id.
Qed.

(** ** Maximum and minimum of an array *)

Lemma foldl_qmax_spec (xs : list Q) (x : Q) :
  foldl Np.qmax x xs ∈ x :: xs
  /\ forall v, v ∈ x :: xs -> (v <= foldl Np.qmax x xs)%Q.
Proof.
  revert x. induction xs as [|y xs IH]; intros x; cbn [foldl].
  - split; [left|]. intros v ->%list_elem_of_singleton. lra.
  - destruct (IH (Np.qmax x y)) as [Hin Hge]. split.
    + apply elem_of_cons in Hin as [Hin|Hin]; [|by do 2 right].
      rewrite Hin. unfold Np.qmax.
      destruct (Qlt_le_dec x y); [right; left|left].
    + assert (x <= Np.qmax x y /\ y <= Np.qmax x y)%Q as [Hx Hy]
        by (unfold Np.qmax; destruct (Qlt_le_dec x y); split; lra).
      pose proof (Hge _ ltac:(left)) as Hm.
      intros v [->|[->|Hv]%elem_of_cons]%elem_of_cons; [lra|lra|].
      apply Hge. by right.
Qed.

Lemma foldl_qmin_spec (xs : list Q) (x : Q) :
  foldl Np.qmin x xs ∈ x :: xs
  /\ forall v, v ∈ x :: xs -> (foldl Np.qmin x xs <= v)%Q.
Proof.
  revert x. induction xs as [|y xs IH]; intros x; cbn [foldl].
  - split; [left|]. intros v ->%list_elem_of_singleton. lra.
  - destruct (IH (Np.qmin x y)) as [Hin Hge]. split.
    + apply elem_of_cons in Hin as [Hin|Hin]; [|by do 2 right].
      rewrite Hin. unfold Np.qmin.
      destruct (Qlt_le_dec y x); [right; left|left].
    + assert (Np.qmin x y <= x /\ Np.qmin x y <= y)%Q as [Hx Hy]
        by (unfold Np.qmin; destruct (Qlt_le_dec y x); split; lra).
      pose proof (Hge _ ltac:(left)) as Hm.
      intros v [->|[->|Hv]%elem_of_cons]%elem_of_cons; [lra|lra|].
      apply Hge. by right.
Qed.

Lemma amax_spec (a : list Q) :
  a ≠ [] ->
  exists m, Np.amax a = Ok m /\ m ∈ a /\ forall v, v ∈ a -> (v <= m)%Q.
Proof.
  destruct a as [|x xs]; [done|]. intros _. eexists. split; [reflexivity|].
  apply foldl_qmax_spec.
Qed.

Lemma amin_spec (a : list Q) :
  a ≠ [] ->
  exists m, Np.amin a = Ok m /\ m ∈ a /\ forall v, v ∈ a -> (m <= v)%Q.
Proof.
  destruct a as [|x xs]; [done|]. intros _. eexists. split; [reflexivity|].
  apply foldl_qmin_spec.
Qed.

(** ** The two time constants *)

(** The year read by [yrs[np.where(mask)][0]] when some entry passes the
    test [p]: the year at the first index whose value passes. *)
Lemma first_passing_year (yrs : list Z) (volume : list Q) (p : Q -> bool)
    (kp : nat) (vp : Q) :
  length yrs = length volume ->
  volume !! kp = Some vp -> p vp = true ->
  exists (k : nat) (y : Z) (v : Q),
    (Np.take_ yrs (Np.where_ (p <$> volume)) ≫= fun sel => getitem sel 0) = Ok y
    /\ yrs !! k = Some y
    /\ volume !! k = Some v /\ p v = true
    /\ forall (j : nat) (vj : Q), (j < k)%nat -> volume !! j = Some vj -> p vj = false.
Proof.
  intros Hlen Hkp Hp.
  destruct (first_true (p <$> volume) kp) as (k & _ & Hk & Hlow).
  { by rewrite list_lookup_fmap, Hkp; simpl; rewrite Hp. }
  apply list_lookup_fmap_Some_1 in Hk as (v & Hpv & Hv).
  destruct (lookup_lt_is_Some_2 yrs k) as [y Hy].
  { rewrite Hlen. by eapply lookup_lt_Some. }
  exists k, y, v. split; [|split; [done|split; [done|split; [done|]]]].
  - apply (select_first yrs (p <$> volume) k y); [|by rewrite list_lookup_fmap, Hv; simpl; rewrite <- Hpv|done|done].
    rewrite length_fmap. lia.
  - intros j vj Hj Hvj. specialize (Hlow j Hj).
    rewrite list_lookup_fmap, Hvj in Hlow. by injection Hlow.
Qed.

(** When no entry passes the test, [np.where] selects nothing and reading
    element 0 of the selection is an [IndexError]. *)
Lemma no_passing_year (yrs : list Z) (volume : list Q) (p : Q -> bool) :
  (forall (j : nat) (vj : Q), volume !! j = Some vj -> p vj = false) ->
  (Np.take_ yrs (Np.where_ (p <$> volume)) ≫= fun sel => getitem sel 0)
  = Raise IndexError.
Proof.
  intros Hnone. unfold Np.where_. rewrite where_from_none; [done|].
  intros j Hj. rewrite list_lookup_fmap in Hj.
  destruct (volume !! j) as [vj|] eqn:Hvj; [|done].
  simpl in Hj. rewrite (Hnone j vj Hvj) in Hj. discriminate.
Qed.

(** X10: for a non-empty volume series with as many years, whatever the
    rounding of the three float operations.  When the threshold the cell
    computes is not above the largest volume, the first time constant is
    the year of the first entry whose volume reaches the threshold, the
    entries before it being below; when rounding puts the threshold above
    the largest volume, the cell raises [IndexError]. *)
Theorem X10_first_time_constant (fsub fmul fadd : Q -> Q -> Q)
    (yrs : list Z) (volume : list Q) (tl : Q) :
  length yrs = length volume ->
  volume ≠ [] ->
  exists (vmax v0 : Q),
    Np.amax volume = Ok vmax
    /\ volume !! 0%nat = Some v0
    /\ ((fadd (fmul (fsub vmax v0) tl) v0 <= vmax)%Q ->
        exists (k : nat) (y : Z) (v : Q),
          ResponseTime.y1 fsub fmul fadd yrs volume tl = Ok y
          /\ yrs !! k = Some y
          /\ volume !! k = Some v
          /\ (fadd (fmul (fsub vmax v0) tl) v0 <= v)%Q
          /\ forall (j : nat) (vj : Q),
               (j < k)%nat -> volume !! j = Some vj ->
               (vj < fadd (fmul (fsub vmax v0) tl) v0)%Q)
    /\ ((vmax < fadd (fmul (fsub vmax v0) tl) v0)%Q ->
        ResponseTime.y1 fsub fmul fadd yrs volume tl = Raise IndexError).
Proof.
  intros Hlen Hne.
  destruct (amax_spec volume Hne) as (vmax & Hmax & Hin & Hge).
  destruct volume as [|v0 vs] eqn:Hvol; [done|]. rewrite <- Hvol in *.
  assert (volume !! 0%nat = Some v0) as Hv0 by (by rewrite Hvol).
  apply list_elem_of_lookup in Hin as [kmax Hkmax].
  exists vmax, v0. split; [done|]. split; [done|].
  set (threshold := fadd (fmul (fsub vmax v0) tl) v0).
  assert (ResponseTime.y1 fsub fmul fadd yrs volume tl =
          (Np.take_ yrs (Np.where_ ((fun v => Qle_bool threshold v) <$> volume))
           ≫= fun sel => getitem sel 0)) as Hy1.
  { unfold ResponseTime.y1.
    by rewrite Hmax, bind_Ok, (getitem_first _ _ Hv0), !bind_Ok. }
  rewrite Hy1. split.
  - intros Hth.
    destruct (first_passing_year yrs volume
                (fun v => Qle_bool threshold v) kmax vmax Hlen Hkmax)
      as (k & y & v & Hsel & Hy & Hv & Hpass & Hlow).
    { by apply Qle_bool_iff. }
    exists k, y, v.
    split; [done|]. split; [done|]. split; [done|]. split.
    + by apply Qle_bool_iff.
    + intros j vj Hj Hvj. specialize (Hlow j vj Hj Hvj).
      apply Qnot_le_lt. intros Hle%Qle_bool_iff.
      cbv beta in Hlow. rewrite Hle in Hlow. discriminate.
  - intros Hth. apply no_passing_year. intros j vj Hvj.
    destruct (Qle_bool threshold vj) eqn:Hle; [|done].
    apply Qle_bool_iff in Hle.
    assert (vj <= vmax)%Q by (apply Hge; by eapply list_elem_of_lookup_2).
    lra.
Qed.

Lemma X10_first_time_constant_witness :
  length [0; 5; 10; 15] = length [(3 # 10)%Q; (5 # 10)%Q; (9 # 10)%Q; 1%Q]
  /\ [(3 # 10)%Q; (5 # 10)%Q; (9 # 10)%Q; 1%Q] ≠ []
  /\ exists y, ResponseTime.y1 Qminus Qmult Qplus [0; 5; 10; 15]
                 [(3 # 10)%Q; (5 # 10)%Q; (9 # 10)%Q; 1%Q] (6 # 10) = Ok y.
Proof.
  assert ([(3 # 10)%Q; (5 # 10)%Q; (9 # 10)%Q; 1%Q] ≠ []) as Hne by discriminate.
  split; [reflexivity|]. split; [exact Hne|].
  destruct (X10_first_time_constant Qminus Qmult Qplus [0; 5; 10; 15]
              [(3 # 10)%Q; (5 # 10)%Q; (9 # 10)%Q; 1%Q] (6 # 10)
              eq_refl Hne) as (vmax & v0 & Hmax & Hv0 & Hok & _).
  injection Hmax as <-. injection Hv0 as <-.
  destruct Hok as (_ & y & _ & Hy & _).
  { apply Qle_bool_iff. vm_compute. reflexivity. }
  exists y. exact Hy.
Defined.

(** X11: under the same conditions, whatever the rounding of the two
    float operations: when the threshold the cell computes
    is not below the smallest volume, the second time constant is the year
    of the first entry whose volume is at or below the threshold, the
    entries before it being above; when rounding puts the threshold below
    the smallest volume, the cell raises [IndexError]. *)
Theorem X11_second_time_constant (fsub fmul : Q -> Q -> Q)
    (yrs : list Z) (volume : list Q) (tl : Q) :
  length yrs = length volume ->
  volume ≠ [] ->
  exists (vmax vmin : Q),
    Np.amax volume = Ok vmax
    /\ Np.amin volume = Ok vmin
    /\ ((vmin <= fsub vmax (Qabs (fmul (fsub vmax vmin) tl)))%Q ->
        exists (k : nat) (y : Z) (v : Q),
          ResponseTime.y2 fsub fmul yrs volume tl = Ok y
          /\ yrs !! k = Some y
          /\ volume !! k = Some v
          /\ (v <= fsub vmax (Qabs (fmul (fsub vmax vmin) tl)))%Q
          /\ forall (j : nat) (vj : Q),
               (j < k)%nat -> volume !! j = Some vj ->
               (fsub vmax (Qabs (fmul (fsub vmax vmin) tl)) < vj)%Q)
    /\ ((fsub vmax (Qabs (fmul (fsub vmax vmin) tl)) < vmin)%Q ->
        ResponseTime.y2 fsub fmul yrs volume tl = Raise IndexError).
Proof.
  intros Hlen Hne.
  destruct (amax_spec volume Hne) as (vmax & Hmax & Hin & Hge).
  destruct (amin_spec volume Hne) as (vmin & Hmin & Hinm & Hlem).
  apply list_elem_of_lookup in Hinm as [kmin Hkmin].
  exists vmax, vmin. split; [done|]. split; [done|].
  set (threshold := fsub vmax (Qabs (fmul (fsub vmax vmin) tl))).
  assert (ResponseTime.y2 fsub fmul yrs volume tl =
          (Np.take_ yrs (Np.where_ ((fun v => Qle_bool v threshold) <$> volume))
           ≫= fun sel => getitem sel 0)) as Hy2.
  { unfold ResponseTime.y2. by rewrite Hmax, !bind_Ok, Hmin, bind_Ok. }
  rewrite Hy2. split.
  - intros Hth.
    destruct (first_passing_year yrs volume
                (fun v => Qle_bool v threshold) kmin vmin Hlen Hkmin)
      as (k & y & v & Hsel & Hy & Hv & Hpass & Hlow).
    { by apply Qle_bool_iff. }
    exists k, y, v.
    split; [done|]. split; [done|]. split; [done|]. split.
    + by apply Qle_bool_iff.
    + intros j vj Hj Hvj. specialize (Hlow j vj Hj Hvj).
      apply Qnot_le_lt. intros Hle%Qle_bool_iff.
      cbv beta in Hlow. rewrite Hle in Hlow. discriminate.
  - intros Hth. apply no_passing_year. intros j vj Hvj.
    destruct (Qle_bool vj threshold) eqn:Hle; [|done].
    apply Qle_bool_iff in Hle.
    assert (vmin <= vj)%Q by (apply Hlem; by eapply list_elem_of_lookup_2).
    lra.
Qed.

Lemma X11_second_time_constant_witness :
  length [0; 5; 10; 15] = length [1%Q; (9 # 10)%Q; (5 # 10)%Q; (3 # 10)%Q]
  /\ [1%Q; (9 # 10)%Q; (5 # 10)%Q; (3 # 10)%Q] ≠ []
  /\ exists y, ResponseTime.y2 Qminus Qmult [0; 5; 10; 15]
                 [1%Q; (9 # 10)%Q; (5 # 10)%Q; (3 # 10)%Q] (6 # 10) = Ok y.
Proof.
  assert ([1%Q; (9 # 10)%Q; (5 # 10)%Q; (3 # 10)%Q] ≠ []) as Hne by discriminate.
  split; [reflexivity|]. split; [exact Hne|].
  destruct (X11_second_time_constant Qminus Qmult [0; 5; 10; 15]
              [1%Q; (9 # 10)%Q; (5 # 10)%Q; (3 # 10)%Q] (6 # 10)
              eq_refl Hne) as (vmax & vmin & Hmax & Hmin & Hok & _).
  injection Hmax as <-. injection Hmin as <-.
  destruct Hok as (_ & y & _ & Hy & _).
  { apply Qle_bool_iff. vm_compute. reflexivity. }
  exists y. exact Hy.
Defined.

(** ** The ELA at the first width equal to ELAW *)

Lemma width_mask_hit (widths : list Q) (ELAW : Q) (k : nat) (w : Q) :
  widths !! k = Some w -> (w == ELAW)%Q ->
  (forall (j : nat) (wj : Q),
     (j < k)%nat -> widths !! j = Some wj -> ~ (wj == ELAW)%Q) ->
  exists rest,
    Np.where_ ((fun w => Qeq_bool w ELAW) <$> widths) = Z.of_nat k :: rest.
Proof.
  intros Hk Hw Hlow. unfold Np.where_.
  destruct (where_from_first ((fun w => Qeq_bool w ELAW) <$> widths) 0 k)
    as (rest & ->).
  - rewrite list_lookup_fmap, Hk. simpl. f_equal. by apply Qeq_bool_iff.
  - intros j Hj.
    destruct (lookup_lt_is_Some_2 widths j) as [wj Hwj].
    { apply lookup_lt_Some in Hk. lia. }
    rewrite list_lookup_fmap, Hwj. simpl. f_equal.
    destruct (Qeq_bool wj ELAW) eqn:E; [|done].
    apply Qeq_bool_iff in E. by destruct (Hlow j wj Hj Hwj).
  - exists rest. by rewrite Z.add_0_l.
Qed.

(** X12: the ELA cell returns the bed elevation at the first index whose
    width equals ELAW; when no width equals ELAW, or when the bed has no
    entry at that index, it raises [IndexError]. *)
Theorem X12_ela_at_first_matching_width (bed_h widths : list Q) (ELAW : Q) :
  (forall (k : nat) (w b : Q),
     widths !! k = Some w -> (w == ELAW)%Q ->
     (forall (j : nat) (wj : Q),
        (j < k)%nat -> widths !! j = Some wj -> ~ (wj == ELAW)%Q) ->
     bed_h !! k = Some b ->
     AdvanceRetreat.ela bed_h widths ELAW = Ok b)
  /\ ((forall (j : nat) (wj : Q), widths !! j = Some wj -> ~ (wj == ELAW)%Q) ->
      AdvanceRetreat.ela bed_h widths ELAW = Raise IndexError)
  /\ (forall (k : nat) (w : Q),
        widths !! k = Some w -> (w == ELAW)%Q ->
        (forall (j : nat) (wj : Q),
           (j < k)%nat -> widths !! j = Some wj -> ~ (wj == ELAW)%Q) ->
        (length bed_h <= k)%nat ->
        AdvanceRetreat.ela bed_h widths ELAW = Raise IndexError).
Proof.
  split; [|split].
  - intros k w b Hk Hw Hlow Hb. unfold AdvanceRetreat.ela.
    destruct (width_mask_hit widths ELAW k w Hk Hw Hlow) as (rest & ->).
    rewrite (getitem_first _ (Z.of_nat k)), bind_Ok by done.
    by apply (getitem_nat _ _ k).
  - intros Hno. unfold AdvanceRetreat.ela, Np.where_.
    rewrite where_from_none; [reflexivity|].
    intros j. rewrite list_lookup_fmap.
    destruct (widths !! j) as [wj|] eqn:Hwj; [|done]. simpl.
    intros [= E]. apply Qeq_bool_iff in E. by destruct (Hno j wj Hwj).
  - intros k w Hk Hw Hlow Hshort. unfold AdvanceRetreat.ela.
    destruct (width_mask_hit widths ELAW k w Hk Hw Hlow) as (rest & ->).
    rewrite (getitem_first _ (Z.of_nat k)), bind_Ok by done.
    unfold getitem.
    destruct (decide (Z.of_nat k < 0)) as [?|_]; [lia|].
    destruct (decide (0 <= Z.of_nat k)) as [_|?]; [|lia].
    by rewrite Nat2Z.id, lookup_ge_None_2.
Qed.

Lemma X12_ela_at_first_matching_width_witness :
  [1000%Q; 750%Q; 500%Q; 500%Q] !! 2%nat = Some 500%Q
  /\ (500 == 500)%Q
  /\ AdvanceRetreat.ela [5000%Q; 4000%Q; 3000%Q; 2000%Q]
       [1000%Q; 750%Q; 500%Q; 500%Q] 500 = Ok 3000%Q.
Proof.
  split; [reflexivity|]. split; [reflexivity|].
  apply (proj1 (X12_ela_at_first_matching_width
                  [5000%Q; 4000%Q; 3000%Q; 2000%Q]
                  [1000%Q; 750%Q; 500%Q; 500%Q] 500) 2%nat 500%Q 3000%Q);
    [reflexivity|reflexivity| |reflexivity].
  intros [|[|j]] wj Hj Hwj; [| |lia]; injection Hwj as <-; discriminate.
Defined.

(** ** The spans drawn by the plotting loop, for any number of surges *)

Lemma mark_loop (p : Z) (l xs : list Z) (i0 : nat) (spans : list (Z * Z))
    (hit : nat -> bool) (span : nat -> Z * Z) :
  (forall (j : nat) (x : Z),
     xs !! j = Some x ->
     SurgePlot.surge_window_test p l (Z.of_nat (i0 + j)) x = Ok (hit (i0 + j)%nat)) ->
  (forall (j : nat) (x : Z),
     xs !! j = Some x -> hit (i0 + j)%nat = true ->
     getitem l (Z.of_nat (i0 + j) - 1) = Ok (span (i0 + j)%nat).1
     /\ getitem l (Z.of_nat (i0 + j) - 1 + p) = Ok (span (i0 + j)%nat).2) ->
  for_enumerate (SurgePlot.mark_step p l) (Z.of_nat i0) xs spans
  = Ok (spans ++ spans_from hit span i0 (length xs)).
Proof.
  revert i0 spans. induction xs as [|x xs IH]; intros i0 spans Htest Hspan.
  { cbn. by rewrite (right_id_L [] (++)). }
  cbn [for_enumerate length spans_from].
  pose proof (Htest 0%nat x eq_refl) as Ht.
  pose proof (Hspan 0%nat x eq_refl) as Hs.
  rewrite Nat.add_0_r in Ht, Hs.
  replace (Z.of_nat i0 + 1) with (Z.of_nat (S i0)) by lia.
  assert (SurgePlot.mark_step p l spans (Z.of_nat i0) x
          = Ok (spans ++ (if hit i0 then [span i0] else []))) as ->.
  { unfold SurgePlot.mark_step. rewrite Ht, bind_Ok.
    destruct (hit i0).
    - destruct (Hs eq_refl) as [-> ->]. rewrite !bind_Ok.
      by destruct (span i0).
    - by rewrite (right_id_L [] (++)). }
  rewrite bind_Ok, IH.
  - by rewrite <- (assoc_L (++)).
  - intros j y Hj. replace (S i0 + j)%nat with (i0 + S j)%nat by lia.
    exact (Htest (S j) y Hj).
  - intros j y Hj. replace (S i0 + j)%nat with (i0 + S j)%nat by lia.
    exact (Hspan (S j) y Hj).
Qed.

Lemma spans_from_app (hit : nat -> bool) (span : nat -> Z * Z) (i0 a b : nat) :
  spans_from hit span i0 (a + b)
  = spans_from hit span i0 a ++ spans_from hit span (i0 + a) b.
Proof.
  revert i0. induction a as [|a IH]; intros i0; cbn [spans_from Nat.add app].
  - by rewrite Nat.add_0_r.
  - rewrite IH, <- (assoc_L (++)). do 3 f_equal. lia.
Qed.

Lemma spans_from_none (hit : nat -> bool) (span : nat -> Z * Z) (i0 n : nat) :
  (forall j, (j < n)%nat -> hit (i0 + j)%nat = false) ->
  spans_from hit span i0 n = [].
Proof.
  revert i0. induction n as [|n IH]; intros i0 Hno; [done|].
  cbn [spans_from]. pose proof (Hno 0%nat ltac:(lia)) as H0.
  rewrite Nat.add_0_r in H0. rewrite H0. cbn [app].
  apply IH. intros j Hj. replace (S i0 + j)%nat with (i0 + S j)%nat by lia.
  apply Hno. lia.
Qed.

Lemma starts_window_iff (i : nat) :
  starts_window i = true <-> exists c : nat, i = (11 + 20 * c)%nat.
Proof.
  unfold starts_window. rewrite andb_true_iff, !bool_decide_eq_true. split.
  - intros [H11 Hmod]. exists ((i - 11) / 20)%nat.
    pose proof (Nat.div_mod_eq (i - 11) 20). lia.
  - intros [c ->]. split; [lia|].
    replace (11 + 20 * c - 11)%nat with (c * 20)%nat by lia.
    apply Nat.Div0.mod_mul.
Qed.

Lemma notebook_spans (n : nat) :
  spans_from starts_window window_span 0 (11 + 20 * n)
  = (fun c => (100 + 110 * c, 110 + 110 * c)) <$> seqZ 0 (Z.of_nat n).
Proof.
  induction n as [|n IH].
  - apply spans_from_none. intros j Hj.
    destruct (starts_window (0 + j)) eqn:E; [|done].
    apply starts_window_iff in E as [c Hc]. lia.
  - replace (11 + 20 * S n)%nat with ((11 + 20 * n) + (1 + 19))%nat by lia.
    rewrite spans_from_app, IH, seqZ_S, fmap_app, spans_from_app. f_equal.
    rewrite (spans_from_none _ _ _ 19).
    + cbn [spans_from app].
      change (0 + (11 + 20 * n))%nat with (11 + 20 * n)%nat.
      rewrite (proj2 (starts_window_iff (11 + 20 * n))) by (by exists n).
      unfold window_span.
      replace (11 + 20 * n - 11)%nat with (n * 20)%nat by lia.
      rewrite Nat.div_mul by done. csimpl. by rewrite Z.add_0_l.
    + intros j Hj.
      destruct (starts_window (0 + (11 + 20 * n) + 1 + j)) eqn:E; [|done].
      apply starts_window_iff in E as [c Hc]. lia.
Qed.

Lemma notebook_window_start_span (n c : nat) :
  (c < n)%nat ->
  getitem (spinup_years ++ (cycles n).*1) (Z.of_nat (11 + 20 * c) - 1)
    = Ok (100 + 110 * Z.of_nat c)
  /\ getitem (spinup_years ++ (cycles n).*1) (Z.of_nat (11 + 20 * c) - 1 + 10)
    = Ok (110 + 110 * Z.of_nat c).
Proof.
  intros Hc. split.
  - destruct c as [|c].
    + apply (getitem_nat _ _ 10%nat); [lia|].
      by rewrite notebook_years_spinup by lia.
    + apply (getitem_nat _ _ (21 + 20 * c + 9)%nat); [lia|].
      rewrite notebook_years_quiet by lia. f_equal. lia.
  - apply (getitem_nat _ _ (11 + 20 * c + 9)%nat); [lia|].
    rewrite notebook_years_surge by lia. f_equal. lia.
Qed.

(** X13: for every number of surges (with the notebook's [t_slow = 100]
    and [period_s = 10]) the plotting loop ends without an exception and
    draws one span per surge, from year [100 + 110 c] to year
    [110 + 110 c], in order. *)
Theorem X13_one_span_per_surge (no_surges : Z) :
  exists yrs,
    Surging.yrs 100 10 no_surges = Ok yrs
    /\ SurgePlot.mark_surging_periods 10 yrs
       = Ok ((fun c => (100 + 110 * c, 110 + 110 * c)) <$> seqZ 0 no_surges).
Proof.
  eexists. split; [apply yrs_shape|].
  set (n := Z.to_nat no_surges).
  unfold SurgePlot.mark_surging_periods.
  rewrite (mark_loop 10 _ _ 0 [] starts_window window_span).
  - rewrite notebook_years_length, notebook_spans. cbn [app]. f_equal.
    replace (seqZ 0 (Z.of_nat n)) with (seqZ 0 no_surges); [done|].
    unfold n. destruct (decide (0 <= no_surges)) as [?|?]; [by rewrite Z2Nat.id|].
    rewrite !seqZ_nil; [done|lia..].
  - intros j x Hj. change (0 + j)%nat with j.
    rewrite (notebook_window_test _ _ _ Hj). f_equal.
    pose proof (lookup_lt_Some _ _ _ Hj) as Hlt.
    rewrite notebook_years_length in Hlt.
    destruct (starts_window j) eqn:E.
    + apply starts_window_iff in E as [c ->].
      apply bool_decide_eq_true_2, list_elem_of_fmap. exists (Z.of_nat c).
      split; [lia|apply elem_of_seqZ; lia].
    + apply bool_decide_eq_false_2.
      intros (c & Hc & Hin%elem_of_seqZ)%list_elem_of_fmap.
      assert (starts_window j = true) as E'
        by (apply starts_window_iff; exists (Z.to_nat c); lia).
      congruence.
  - intros j x Hj Hhit. change (0 + j)%nat with j in *.
    apply starts_window_iff in Hhit as [c ->].
    pose proof (lookup_lt_Some _ _ _ Hj) as Hlt.
    rewrite notebook_years_length in Hlt.
    unfold window_span. cbn [fst snd].
    replace (11 + 20 * c - 11)%nat with (c * 20)%nat by lia.
    rewrite Nat.div_mul by done.
    apply notebook_window_start_span. lia.
Qed.
